(** * riscv-python-model: Immediate, Register, RegisterFile and the executor

    A shallow embedding of [riscvmodel/types.py] and of the base-ISA
    [execute] methods of [riscvmodel/isa.py].

    Python integers are unbounded, so they are [Z]; the bit operators
    [&], [|], [^], [~], [<<], [>>] are [Z.land], [Z.lor], [Z.lxor],
    [Z.lnot], [Z.shiftl], [Z.shiftr] (both sides use infinite two's
    complement).  A method that mutates [self] is a function from the
    object to an outcome paired with the object as the method leaves it,
    also when it raises: the caller of a Python method that raised still
    sees whatever the method had already assigned. *)

From Stdlib Require Import ZArith List Bool Lia.
Import ListNotations.
Local Open Scope Z_scope.

(** ** Python primitives *)

Module Py.

(** The exceptions the modelled code can raise. *)
Inductive exn : Type :=
| InvalidImmediateException
| ValueError   (* negative shift count *)
| IndexError   (* list index out of range *)
| TypeError.

Inductive result (A : Type) : Type :=
| Ok (a : A)
| Raise (e : exn).
Arguments Ok {A} a.
Arguments Raise {A} e.

Definition bind {A B : Type} (m : result A) (k : A -> result B) : result B :=
  match m with
  | Ok a => k a
  | Raise e => Raise e
  end.

(** [a << n]: a negative shift count is a ValueError. *)
Definition lshift (a n : Z) : result Z :=
  if n <? 0 then Raise ValueError else Ok (Z.shiftl a n).

(** [a >> n]: floor shift, a negative shift count is a ValueError. *)
Definition rshift (a n : Z) : result Z :=
  if n <? 0 then Raise ValueError else Ok (Z.shiftr a n).

(** Position designated by the subscript [i] in a list of [len] items:
    [0 .. len-1] count from the front, [-len .. -1] from the back,
    anything else is an IndexError. *)
Definition position (len : nat) (i : Z) : result nat :=
  if (0 <=? i) && (i <? Z.of_nat len) then Ok (Z.to_nat i)
  else if (- Z.of_nat len <=? i) && (i <? 0) then Ok (Z.to_nat (Z.of_nat len + i))
  else Raise IndexError.

(** [l[i]] *)
Definition getitem {A : Type} (l : list A) (i : Z) : result A :=
  match position (length l) i with
  | Ok p =>
      match nth_error l p with
      | Some a => Ok a
      | None => Raise IndexError
      end
  | Raise e => Raise e
  end.

(** In-place replacement of the item at position [p]. *)
Fixpoint replace {A : Type} (p : nat) (a : A) (l : list A) : list A :=
  match l, p with
  | [], _ => []
  | _ :: l', O => a :: l'
  | x :: l', S p' => x :: replace p' a l'
  end.

End Py.

Import Py.

Notation "x <- m ;; k" := (Py.bind m (fun x => k))
  (at level 61, m at next level, right associativity).

(** ** types.py: Immediate *)

Module Immediate.

(** [tcmask] and [mask] are assigned once by [__init__] from [bits] and
    never again; they are the functions [tcmask] and [mask] below. *)
Record t : Type := mk {
  bits : Z;
  signed : bool;
  lsb0 : bool;
  value : Z
}.

Definition tcmask (self : t) : Z := Z.shiftl 1 (bits self - 1).
Definition mask (self : t) : Z := Z.shiftl 1 (bits self) - 1.

(** [__init__]: both shifts must be legal for the object to exist. *)
Definition init (bits : Z) (signed lsb0 : bool) : result t :=
  _ <- lshift 1 (bits - 1) ;;
  _ <- lshift 1 bits ;;
  Ok (mk bits signed lsb0 0).

Definition max (self : t) : Z :=
  let v := if signed self
           then Z.shiftl 1 (bits self - 1) - 1
           else Z.shiftl 1 (bits self) - 1 in
  if lsb0 self then v - v mod 2 else v.

Definition min (self : t) : Z :=
  if signed self then - Z.shiftl 1 (bits self - 1) else 0.

Definition with_value (self : t) (v : Z) : t :=
  mk (bits self) (signed self) (lsb0 self) v.

(** [set]: the argument is an [int] here, so the [isinstance] test
    passes.  The alignment test reads [self.value], the value stored
    before the call. *)
Definition set (self : t) (v : Z) : result unit * t :=
  if lsb0 self && (value self mod 2 =? 1) then
    (Raise InvalidImmediateException, self)
  else if negb (signed self) && (v <? 0) then
    (Raise InvalidImmediateException, self)
  else if (v <? min self) || (v >? max self) then
    (Raise InvalidImmediateException, self)
  else (Ok tt, with_value self v).

Definition set_from_bits (self : t) (v : Z) : result unit * t :=
  let v' := if signed self
            then - (Z.land v (tcmask self)) + Z.land v (Z.lnot (tcmask self))
            else v in
  set self v'.

Definition unsigned (self : t) : Z := Z.land (value self) (mask self).

(** [__lshift__] builds a new Immediate; a failure leaves no object. *)
Definition lshift (self : t) (shamt : Z) : result t :=
  new <- init (bits self + shamt) (signed self) (lsb0 self) ;;
  sv <- Py.lshift (value self) shamt ;;
  match set new sv with
  | (Ok _, new') => Ok new'
  | (Raise e, _) => Raise e
  end.

(** [randomize]: [randint(a, b)] returns some integer of [a .. b], here
    the argument [draw], and is a ValueError when the range is empty. *)
Definition randomize (self : t) (draw : Z) : result unit * t :=
  if max self <? min self then (Raise ValueError, self)
  else
    let self := with_value self draw in
    if lsb0 self
    then (Ok tt, with_value self (value self - value self mod 2))
    else (Ok tt, self).

(** [__eq__] compares the values only. *)
Definition eq (self other : t) : bool := value self =? value other.

End Immediate.

(** ** types.py: Register *)

Module Register.

(** [mask] is assigned once by [__init__]; it is the function [mask]. *)
Record t : Type := mk {
  bits : Z;
  immutable : bool;
  value : Z
}.

Definition mask (self : t) : Z := Z.shiftl 1 (bits self) - 1.

Definition init (bits : Z) : result t :=
  _ <- Py.lshift 1 bits ;;
  Ok (mk bits false 0).

Definition set_immutable (self : t) (s : bool) : t :=
  mk (bits self) s (value self).

Definition with_value (self : t) (v : Z) : t :=
  mk (bits self) (immutable self) v.

(** What the code passes where it accepts "a Register, an Immediate or
    an int" and tells them apart with [isinstance]. *)
Inductive operand : Type :=
| OInt (z : Z)
| OReg (r : t)
| OImm (i : Immediate.t).

(** [int(x)]: [Register.__int__] and [Immediate.__int__] return
    [value]. *)
Definition py_int (x : operand) : Z :=
  match x with
  | OInt z => z
  | OReg r => value r
  | OImm i => Immediate.value i
  end.

(** [set]: the assignment (skipped on an immutable register) comes
    first, the sign test after it, so a ValueError of the shift leaves
    the assigned value behind. *)
Definition set (self : t) (v : operand) : result unit * t :=
  let v := py_int v in
  let self := if immutable self then self else with_value self v in
  match Py.rshift (value self) (bits self - 1) with
  | Raise e => (Raise e, self)
  | Ok s =>
      if negb (Z.land s 1 =? 0)
      then (Ok tt, with_value self (Z.lor (value self) (Z.lnot (mask self))))
      else (Ok tt, with_value self (Z.land (value self) (mask self)))
  end.

Definition unsigned (self : t) : Z := Z.land (value self) (mask self).

(** [new = Register(self.bits); new.set(v); return new] *)
Definition fresh (self : t) (v : Z) : result t :=
  new <- init (bits self) ;;
  match set new (OInt v) with
  | (Ok _, new') => Ok new'
  | (Raise e, _) => Raise e
  end.

Definition add (self : t) (other : operand) : result t :=
  fresh self (value self + py_int other).

Definition sub (self : t) (other : operand) : result t :=
  fresh self (value self - py_int other).

(** [__cmp__] as written: true when the two differ.  Python 3 never
    calls it. *)
Definition cmp (self other : t) : bool :=
  negb (bits self =? bits other) || negb (value self =? value other).

(** [__and__], [__or__], [__xor__]: the [isinstance] branches read the
    int itself or the [value] of a Register or Immediate. *)
Definition and (self : t) (other : operand) : result t :=
  match other with
  | OInt z => fresh self (Z.land (value self) z)
  | OReg r => fresh self (Z.land (value self) (value r))
  | OImm i => fresh self (Z.land (value self) (Immediate.value i))
  end.

Definition or (self : t) (other : operand) : result t :=
  match other with
  | OInt z => fresh self (Z.lor (value self) z)
  | OReg r => fresh self (Z.lor (value self) (value r))
  | OImm i => fresh self (Z.lor (value self) (Immediate.value i))
  end.

Definition lt (self : t) (other : operand) : bool :=
  value self <? py_int other.

Definition xor (self : t) (other : operand) : result t :=
  match other with
  | OInt z => fresh self (Z.lxor (value self) z)
  | OReg r => fresh self (Z.lxor (value self) (value r))
  | OImm i => fresh self (Z.lxor (value self) (Immediate.value i))
  end.

(** In [__lshift__] and [__rshift__] the Register is created before
    the shift is computed. *)
Definition lshift (self : t) (other : operand) : result t :=
  _ <- init (bits self) ;;
  match other with
  | OInt z => v <- Py.lshift (value self) z ;; fresh self v
  | OReg r => v <- Py.lshift (value self) (value r) ;; fresh self v
  | OImm i => v <- Py.lshift (value self) (Immediate.value i) ;; fresh self v
  end.

Definition rshift (self : t) (other : operand) : result t :=
  _ <- init (bits self) ;;
  match other with
  | OInt z => v <- Py.rshift (value self) z ;; fresh self v
  | OReg r => v <- Py.rshift (value self) (value r) ;; fresh self v
  | OImm i => v <- Py.rshift (value self) (Immediate.value i) ;; fresh self v
  end.


(** [randomize]: [1 << self.bits - 1] is [1 << (self.bits - 1)]; the
    integer [randint] returns is the argument [draw]. *)
Definition randomize (self : t) (draw : Z) : result unit * t :=
  if negb (immutable self) then
    match Py.lshift 1 (bits self - 1) with
    | Raise e => (Raise e, self)
    | Ok _ => (Ok tt, with_value self draw)
    end
  else (Ok tt, self).

End Register.

Abbreviation operand := Register.operand.
Abbreviation OInt := Register.OInt.
Abbreviation OReg := Register.OReg.
Abbreviation OImm := Register.OImm.
Abbreviation py_int := Register.py_int.

(** ** types.py: TraceRegister, RegisterFile *)

Module TraceRegister.

(** [__init__] stores [id] and [int(value)].  TraceIntegerRegister only
    overrides [__str__]. *)
Record t : Type := mk {
  id : Z;
  value : Z
}.

Definition init (id : Z) (v : operand) : t := mk id (py_int v).

End TraceRegister.

Module RegisterFile.

Record t : Type := mk {
  num : Z;
  bits : Z;
  regs : list Register.t;
  regs_updates : list TraceRegister.t
}.

Definition with_regs (self : t) (rs : list Register.t) : t :=
  mk (num self) (bits self) rs (regs_updates self).

Definition with_updates (self : t) (us : list TraceRegister.t) : t :=
  mk (num self) (bits self) (regs self) us.

(** [for i in range(num): self.regs.append(Register(bits))] *)
Fixpoint init_regs (n : nat) (bits : Z) : result (list Register.t) :=
  match n with
  | O => Ok []
  | S n' =>
      r <- Register.init bits ;;
      rs <- init_regs n' bits ;;
      Ok (r :: rs)
  end.

(** [for r in immutable.items(): regs[r[0]].set(r[1]); regs[r[0]].set_immutable(True)] *)
Fixpoint init_immutable (rs : list Register.t) (items : list (Z * Z))
  : result (list Register.t) :=
  match items with
  | [] => Ok rs
  | (k, v) :: items' =>
      p <- Py.position (length rs) k ;;
      r <- Py.getitem rs k ;;
      match Register.set r (OInt v) with
      | (Raise e, _) => Raise e
      | (Ok _, r') =>
          init_immutable (Py.replace p (Register.set_immutable r' true) rs) items'
      end
  end.

(** [__init__]; the dict [immutable] is the list of its items. *)
Definition init (num bits : Z) (immutable : list (Z * Z)) : result t :=
  rs <- init_regs (Z.to_nat num) bits ;;
  rs' <- init_immutable rs immutable ;;
  Ok (mk num bits rs' []).

(** [__setitem__]: every failure happens before the [append]. *)
Definition setitem (self : t) (key : Z) (v : operand) : result unit * t :=
  match Py.getitem (regs self) key with
  | Raise e => (Raise e, self)
  | Ok r =>
      if negb (Register.immutable r) then
        match Register.init (bits self) with
        | Raise e => (Raise e, self)
        | Ok reg =>
            match Register.set reg v with
            | (Raise e, _) => (Raise e, self)
            | (Ok _, reg') =>
                (Ok tt,
                 with_updates self
                   (regs_updates self ++ [TraceRegister.init key (OReg reg')]))
            end
        end
      else (Ok tt, self)
  end.

Definition getitem (self : t) (item : Z) : result Register.t :=
  Py.getitem (regs self) item.

(** The loop of [commit]: [self.regs[t.id].set(t.value)] for each
    record in turn; an exception stops it with the registers as they
    are. *)
Fixpoint commit_loop (rs : list Register.t) (us : list TraceRegister.t)
  : result unit * list Register.t :=
  match us with
  | [] => (Ok tt, rs)
  | u :: us' =>
      match Py.position (length rs) (TraceRegister.id u), Py.getitem rs (TraceRegister.id u) with
      | Ok p, Ok r =>
          match Register.set r (OInt (TraceRegister.value u)) with
          | (Ok _, r') => commit_loop (Py.replace p r' rs) us'
          | (Raise e, r') => (Raise e, Py.replace p r' rs)
          end
      | Raise e, _ => (Raise e, rs)
      | _, Raise e => (Raise e, rs)
      end
  end.

(** [commit]: the log is cleared only when the loop completes. *)
Definition commit (self : t) : result unit * t :=
  match commit_loop (regs self) (regs_updates self) with
  | (Ok _, rs) => (Ok tt, mk (num self) (bits self) rs [])
  | (Raise e, rs) => (Raise e, with_regs self rs)
  end.

(** [changes]: returns a copy of the log and assigns nothing; like the
    other methods it is given with the file as it leaves it. *)
Definition changes (self : t) : list TraceRegister.t * t :=
  (regs_updates self, self).


(** The loop of [randomize]: [self.regs[i].randomize()] for [i] from
    [i] on, [n] times; [draw i] is what [randint] returns for
    register [i]. *)
Fixpoint randomize_loop (rs : list Register.t) (draw : nat -> Z) (i n : nat)
  : result unit * list Register.t :=
  match n with
  | O => (Ok tt, rs)
  | S n' =>
      match Py.getitem rs (Z.of_nat i) with
      | Raise e => (Raise e, rs)
      | Ok r =>
          match Register.randomize r (draw i) with
          | (Ok _, r') => randomize_loop (Py.replace i r' rs) draw (S i) n'
          | (Raise e, r') => (Raise e, Py.replace i r' rs)
          end
      end
  end.

(** [randomize]: [for i in range(self.num): self.regs[i].randomize()] *)
Definition randomize (self : t) (draw : nat -> Z) : result unit * t :=
  match randomize_loop (regs self) draw 0 (Z.to_nat (num self)) with
  | (r, rs) => (r, with_regs self rs)
  end.

End RegisterFile.

(** ** The architectural state and isa.py *)

Section Executor.

Context {Mem : Type}.

(** Modelled from the spec: the class State, which isa.py imports from a
    module that is not part of the modelled sources.  The spec gives it
    as [{registers: RegisterFile, pc: integer, memory}] with [pc]
    "updated directly (not deferred)".  The executor calls the register
    file [intreg].  With an integer [pc], [model.pc + 4] is an integer
    addition and [model.pc = self.imm] stores the immediate's value.
    The sum [model.pc + self.imm] is not defined for every [pc]: it is
    [pc_plus] below. *)
Record State : Type := mkState {
  intreg : RegisterFile.t;
  pc : Z;
  memory : Mem
}.

Definition with_pc (model : State) (v : Z) : State :=
  mkState (intreg model) v (memory model).

(** [model.intreg[key] = v] *)
Definition intreg_setitem (model : State) (key : Z) (v : operand)
  : result unit * State :=
  match RegisterFile.setitem (intreg model) key v with
  | (r, rf) => (r, mkState rf (pc model) (memory model))
  end.

(** [State.commit]: the register file commits; [pc] is not deferred. *)
Definition State_commit (model : State) : result unit * State :=
  match RegisterFile.commit (intreg model) with
  | (r, rf) => (r, mkState rf (pc model) (memory model))
  end.

(** Operand fields of the formats used below. *)
Record InstructionJType : Type := mkJ { j_rd : Z; j_imm : Immediate.t }.
Record InstructionBType : Type :=
  mkB { b_rs1 : Z; b_rs2 : Z; b_imm : Immediate.t }.
Record InstructionRType : Type := mkR { r_rd : Z; r_rs1 : Z; r_rs2 : Z }.

Record InstructionUType : Type := mkU { u_rd : Z; u_imm : Immediate.t }.

(** [model.intreg[self.rd] = (self.imm << 12)] *)
Definition InstructionLUI_execute (self : InstructionUType) (model : State)
  : result unit * State :=
  match Immediate.lshift (u_imm self) 12 with
  | Raise e => (Raise e, model)
  | Ok v => intreg_setitem model (u_rd self) (OImm v)
  end.

Definition InstructionJAL_execute (self : InstructionJType) (model : State)
  : result unit * State :=
  match intreg_setitem model (j_rd self) (OInt (pc model + 4)) with
  | (Raise e, model') => (Raise e, model')
  | (Ok _, model') => (Ok tt, with_pc model' (Immediate.value (j_imm self)))
  end.

(** What [model.pc] is when an Immediate is added to it.  The class
    State decides it and is not among the sources: the spec gives a
    plain int; the only left operand for which the sources define
    [+ Immediate] is a Register.  [pc model] is its integer value in
    both cases. *)
Inductive pc_kind : Type :=
| PcInt
| PcRegister (bits : Z).

(** [model.pc + imm] for an Immediate [imm].  On an int, [int.__add__]
    does not take an Immediate and Immediate defines neither [__add__]
    nor [__radd__]: TypeError.  On a Register it is [Register.__add__],
    which returns a new Register of the same width. *)
Definition pc_plus (kind : pc_kind) (pc : Z) (imm : Immediate.t)
  : result operand :=
  match kind with
  | PcInt => Raise TypeError
  | PcRegister bits =>
      r <- Register.add (Register.mk bits false pc) (OImm imm) ;;
      Ok (OReg r)
  end.

(** The shape shared by the six branches: read [rs1], read [rs2], test,
    and when the test holds evaluate [model.pc + self.imm] and assign
    it to [pc], which keeps its integer value. *)
Definition branch_execute (kind : pc_kind)
  (test : Register.t -> Register.t -> bool)
  (self : InstructionBType) (model : State) : result unit * State :=
  match RegisterFile.getitem (intreg model) (b_rs1 self) with
  | Raise e => (Raise e, model)
  | Ok a =>
      match RegisterFile.getitem (intreg model) (b_rs2 self) with
      | Raise e => (Raise e, model)
      | Ok b =>
          if test a b
          then
            match pc_plus kind (pc model) (b_imm self) with
            | Raise e => (Raise e, model)
            | Ok v => (Ok tt, with_pc model (py_int v))
            end
          else (Ok tt, model)
      end
  end.

Definition InstructionBEQ_execute (kind : pc_kind) :=
  branch_execute kind (fun a b => Register.value a =? Register.value b).

Definition InstructionBNE_execute (kind : pc_kind) :=
  branch_execute kind (fun a b => negb (Register.value a =? Register.value b)).

Definition InstructionBLT_execute (kind : pc_kind) :=
  branch_execute kind (fun a b => Register.value a <? Register.value b).

Definition InstructionBGE_execute (kind : pc_kind) :=
  branch_execute kind (fun a b => Register.value a >=? Register.value b).

Definition InstructionBLTU_execute (kind : pc_kind) :=
  branch_execute kind (fun a b => Register.unsigned a <? Register.unsigned b).

Definition InstructionBGEU_execute (kind : pc_kind) :=
  branch_execute kind (fun a b => Register.unsigned a >=? Register.unsigned b).

(** [model.intreg[rd] = model.intreg[rs1] >> model.intreg[rs2]] *)
Definition InstructionSRL_execute (self : InstructionRType) (model : State)
  : result unit * State :=
  match RegisterFile.getitem (intreg model) (r_rs1 self) with
  | Raise e => (Raise e, model)
  | Ok a =>
      match RegisterFile.getitem (intreg model) (r_rs2 self) with
      | Raise e => (Raise e, model)
      | Ok b =>
          match Register.rshift a (OReg b) with
          | Raise e => (Raise e, model)
          | Ok v => intreg_setitem model (r_rd self) (OReg v)
          end
      end
  end.

(** [model.intreg[rd] = model.intreg[rs1] >> model.intreg[rs2]] *)
Definition InstructionSRA_execute (self : InstructionRType) (model : State)
  : result unit * State :=
  match RegisterFile.getitem (intreg model) (r_rs1 self) with
  | Raise e => (Raise e, model)
  | Ok a =>
      match RegisterFile.getitem (intreg model) (r_rs2 self) with
      | Raise e => (Raise e, model)
      | Ok b =>
          match Register.rshift a (OReg b) with
          | Raise e => (Raise e, model)
          | Ok v => intreg_setitem model (r_rd self) (OReg v)
          end
      end
  end.


(** *** The remaining base instructions

    An [execute] evaluates the right-hand side, which only reads the
    state, then performs the one assignment; [attempt] is the first part:
    an exception there ends the instruction with the state as it was. *)
Definition attempt {A : Type} (m : result A) (model : State)
  (k : A -> result unit * State) : result unit * State :=
  match m with
  | Raise e => (Raise e, model)
  | Ok a => k a
  end.

Record InstructionIType : Type :=
  mkI { i_rd : Z; i_rs1 : Z; i_imm : Immediate.t }.

(** The shift amount is used both as [int(self.shamt)] and as the right
    operand of a Register shift, so it is an [operand]. *)
Record InstructionISType : Type :=
  mkIS { is_rd : Z; is_rs1 : Z; is_shamt : operand }.

(** [model.intreg[self.rd] = model.pc + (self.imm << 12)]: the shift is
    evaluated, then the sum, then the assignment. *)
Definition InstructionAUIPC_execute (kind : pc_kind) (self : InstructionUType)
  (model : State) : result unit * State :=
  attempt (Immediate.lshift (u_imm self) 12) model (fun sh =>
  attempt (pc_plus kind (pc model) sh) model (fun v =>
  intreg_setitem model (u_rd self) v)).

(** [model.intreg[self.rd] = model.pc + 4] and then
    [model.pc = model.intreg[self.rs1] + self.imm]: the sum is a
    Register, of which the integer [pc] keeps the value.  The second
    statement runs on the state the first one left. *)
Definition InstructionJALR_execute (self : InstructionIType) (model : State)
  : result unit * State :=
  match intreg_setitem model (i_rd self) (OInt (pc model + 4)) with
  | (Raise e, model') => (Raise e, model')
  | (Ok _, model') =>
      attempt (RegisterFile.getitem (intreg model') (i_rs1 self)) model' (fun a =>
      attempt (Register.add a (OImm (i_imm self))) model' (fun t =>
      (Ok tt, with_pc model' (Register.value t))))
  end.

Definition InstructionADDI_execute (self : InstructionIType) (model : State)
  : result unit * State :=
  attempt (RegisterFile.getitem (intreg model) (i_rs1 self)) model (fun a =>
  attempt (Register.add a (OImm (i_imm self))) model (fun v =>
  intreg_setitem model (i_rd self) (OReg v))).

Definition InstructionSLTI_execute (self : InstructionIType) (model : State)
  : result unit * State :=
  attempt (RegisterFile.getitem (intreg model) (i_rs1 self)) model (fun a =>
  if Register.lt a (OImm (i_imm self))
  then intreg_setitem model (i_rd self) (OInt 1)
  else intreg_setitem model (i_rd self) (OInt 0)).

(** [model.intreg[self.rs1].unsigned() < int(self.imm)] *)
Definition InstructionSLTIU_execute (self : InstructionIType) (model : State)
  : result unit * State :=
  attempt (RegisterFile.getitem (intreg model) (i_rs1 self)) model (fun a =>
  if Register.unsigned a <? Immediate.value (i_imm self)
  then intreg_setitem model (i_rd self) (OInt 1)
  else intreg_setitem model (i_rd self) (OInt 0)).

Definition InstructionXORI_execute (self : InstructionIType) (model : State)
  : result unit * State :=
  attempt (RegisterFile.getitem (intreg model) (i_rs1 self)) model (fun a =>
  attempt (Register.xor a (OImm (i_imm self))) model (fun v =>
  intreg_setitem model (i_rd self) (OReg v))).

Definition InstructionORI_execute (self : InstructionIType) (model : State)
  : result unit * State :=
  attempt (RegisterFile.getitem (intreg model) (i_rs1 self)) model (fun a =>
  attempt (Register.or a (OImm (i_imm self))) model (fun v =>
  intreg_setitem model (i_rd self) (OReg v))).

Definition InstructionANDI_execute (self : InstructionIType) (model : State)
  : result unit * State :=
  attempt (RegisterFile.getitem (intreg model) (i_rs1 self)) model (fun a =>
  attempt (Register.and a (OImm (i_imm self))) model (fun v =>
  intreg_setitem model (i_rd self) (OReg v))).

(** [model.intreg[self.rd] = model.intreg[self.rs1] << self.shamt] *)
Definition InstructionSLLI_execute (self : InstructionISType) (model : State)
  : result unit * State :=
  attempt (RegisterFile.getitem (intreg model) (is_rs1 self)) model (fun a =>
  attempt (Register.lshift a (is_shamt self)) model (fun v =>
  intreg_setitem model (is_rd self) (OReg v))).

(** [model.intreg[self.rd] = model.intreg[self.rs1].unsigned() >> int(self.shamt)] *)
Definition InstructionSRLI_execute (self : InstructionISType) (model : State)
  : result unit * State :=
  attempt (RegisterFile.getitem (intreg model) (is_rs1 self)) model (fun a =>
  attempt (Py.rshift (Register.unsigned a) (py_int (is_shamt self))) model (fun v =>
  intreg_setitem model (is_rd self) (OInt v))).

(** [model.intreg[self.rd] = model.intreg[self.rs1] >> self.shamt] *)
Definition InstructionSRAI_execute (self : InstructionISType) (model : State)
  : result unit * State :=
  attempt (RegisterFile.getitem (intreg model) (is_rs1 self)) model (fun a =>
  attempt (Register.rshift a (is_shamt self)) model (fun v =>
  intreg_setitem model (is_rd self) (OReg v))).

Definition InstructionADD_execute (self : InstructionRType) (model : State)
  : result unit * State :=
  attempt (RegisterFile.getitem (intreg model) (r_rs1 self)) model (fun a =>
  attempt (RegisterFile.getitem (intreg model) (r_rs2 self)) model (fun b =>
  attempt (Register.add a (OReg b)) model (fun v =>
  intreg_setitem model (r_rd self) (OReg v)))).

Definition InstructionSUB_execute (self : InstructionRType) (model : State)
  : result unit * State :=
  attempt (RegisterFile.getitem (intreg model) (r_rs1 self)) model (fun a =>
  attempt (RegisterFile.getitem (intreg model) (r_rs2 self)) model (fun b =>
  attempt (Register.sub a (OReg b)) model (fun v =>
  intreg_setitem model (r_rd self) (OReg v)))).

(** [model.intreg[rd] = model.intreg[rs1] << (model.intreg[rs2] & 0x1f)] *)
Definition InstructionSLL_execute (self : InstructionRType) (model : State)
  : result unit * State :=
  attempt (RegisterFile.getitem (intreg model) (r_rs1 self)) model (fun a =>
  attempt (RegisterFile.getitem (intreg model) (r_rs2 self)) model (fun b =>
  attempt (Register.and b (OInt 31)) model (fun n =>
  attempt (Register.lshift a (OReg n)) model (fun v =>
  intreg_setitem model (r_rd self) (OReg v))))).

Definition InstructionSLT_execute (self : InstructionRType) (model : State)
  : result unit * State :=
  attempt (RegisterFile.getitem (intreg model) (r_rs1 self)) model (fun a =>
  attempt (RegisterFile.getitem (intreg model) (r_rs2 self)) model (fun b =>
  if Register.lt a (OReg b)
  then intreg_setitem model (r_rd self) (OInt 1)
  else intreg_setitem model (r_rd self) (OInt 0))).

Definition InstructionSLTU_execute (self : InstructionRType) (model : State)
  : result unit * State :=
  attempt (RegisterFile.getitem (intreg model) (r_rs1 self)) model (fun a =>
  attempt (RegisterFile.getitem (intreg model) (r_rs2 self)) model (fun b =>
  if Register.unsigned a <? Register.unsigned b
  then intreg_setitem model (r_rd self) (OInt 1)
  else intreg_setitem model (r_rd self) (OInt 0))).

Definition InstructionXOR_execute (self : InstructionRType) (model : State)
  : result unit * State :=
  attempt (RegisterFile.getitem (intreg model) (r_rs1 self)) model (fun a =>
  attempt (RegisterFile.getitem (intreg model) (r_rs2 self)) model (fun b =>
  attempt (Register.xor a (OReg b)) model (fun v =>
  intreg_setitem model (r_rd self) (OReg v)))).

Definition InstructionOR_execute (self : InstructionRType) (model : State)
  : result unit * State :=
  attempt (RegisterFile.getitem (intreg model) (r_rs1 self)) model (fun a =>
  attempt (RegisterFile.getitem (intreg model) (r_rs2 self)) model (fun b =>
  attempt (Register.or a (OReg b)) model (fun v =>
  intreg_setitem model (r_rd self) (OReg v)))).

Definition InstructionAND_execute (self : InstructionRType) (model : State)
  : result unit * State :=
  attempt (RegisterFile.getitem (intreg model) (r_rs1 self)) model (fun a =>
  attempt (RegisterFile.getitem (intreg model) (r_rs2 self)) model (fun b =>
  attempt (Register.and a (OReg b)) model (fun v =>
  intreg_setitem model (r_rd self) (OReg v)))).

(** *** Compressed instructions whose [execute] is complete *)

Record InstructionCIType : Type := mkCI { ci_rd : Z; ci_imm : Immediate.t }.
Record InstructionCRType : Type := mkCR { cr_rd : Z; cr_rs : Z }.
Record InstructionCJType : Type := mkCJ { cj_imm : Immediate.t }.

(** c.addi: [model.intreg[self.rd] = model.intreg[self.rd] + self.imm] *)
Definition InstructionCADDI_execute (self : InstructionCIType) (model : State)
  : result unit * State :=
  attempt (RegisterFile.getitem (intreg model) (ci_rd self)) model (fun a =>
  attempt (Register.add a (OImm (ci_imm self))) model (fun v =>
  intreg_setitem model (ci_rd self) (OReg v))).

(** c.li: [model.intreg[self.rd] = self.imm] *)
Definition InstructionCLI_execute (self : InstructionCIType) (model : State)
  : result unit * State :=
  intreg_setitem model (ci_rd self) (OImm (ci_imm self)).

(** c.mv: [model.intreg[self.rd] = model.intreg[self.rs]] *)
Definition InstructionCMV_execute (self : InstructionCRType) (model : State)
  : result unit * State :=
  attempt (RegisterFile.getitem (intreg model) (cr_rs self)) model (fun a =>
  intreg_setitem model (cr_rd self) (OReg a)).

(** c.lui: [model.intreg[self.rd] = (self.imm << 12)] *)
Definition InstructionCLUI_execute (self : InstructionCIType) (model : State)
  : result unit * State :=
  attempt (Immediate.lshift (ci_imm self) 12) model (fun v =>
  intreg_setitem model (ci_rd self) (OImm v)).

(** c.j: [model.pc += self.imm]; neither int nor Register defines
    [__iadd__], so this is [model.pc = model.pc + self.imm]. *)
Definition InstructionCJ_execute (kind : pc_kind) (self : InstructionCJType)
  (model : State) : result unit * State :=
  attempt (pc_plus kind (pc model) (cj_imm self)) model (fun v =>
  (Ok tt, with_pc model (py_int v))).

End Executor.

Arguments State : clear implicits.

(** ** Object identity

    Register defines [__cmp__] but neither [__eq__] nor [__ne__].  The
    sources are Python 3 (keyword-only parameters, annotations), where
    [__cmp__] is never consulted and [a == b] on such objects is the
    default comparison of [object]: identity.  Objects therefore need an
    address. *)

Module Heap.

(** The store of Register objects, addressed by allocation order. *)
Definition t : Type := list Register.t.
Definition addr : Type := nat.

(** [Register(bits)]: a new object at a new address. *)
Definition new_Register (h : t) (bits : Z) : result (addr * t) :=
  r <- Register.init bits ;;
  Ok (length h, h ++ [r]).

Definition deref (h : t) (a : addr) : option Register.t := nth_error h a.

(** [a == b] for two Register objects. *)
Definition Register_eq (a b : addr) : bool := Nat.eqb a b.

End Heap.

(** * Vocabulary of the statements *)

(** The value of the [bits]-wide two's-complement pattern of [v]. *)
Definition wrap (bits v : Z) : Z :=
  (v + 2 ^ (bits - 1)) mod 2 ^ bits - 2 ^ (bits - 1).

(** The result an operator builds from the unbounded value [z]: a new
    mutable Register of the left operand's width holding [z] wrapped. *)
Definition rewrapped (self : Register.t) (z : Z) : result Register.t :=
  Ok (Register.mk (Register.bits self) false (wrap (Register.bits self) z)).

(** The record [u] designates position [p] of a file of [len] registers. *)
Definition targets (len : nat) (u : TraceRegister.t) (p : nat) : bool :=
  match Py.position len (TraceRegister.id u) with
  | Ok q => Nat.eqb q p
  | Raise _ => false
  end.

(** The value of the record appended last among those of [us] that
    designate position [p], if there is one. *)
Fixpoint last_write (len p : nat) (us : list TraceRegister.t) : option Z :=
  match us with
  | [] => None
  | u :: us' =>
      match last_write len p us' with
      | Some z => Some z
      | None => if targets len u p then Some (TraceRegister.value u) else None
      end
  end.

(** The register [r] once the records designating it have been applied,
    [w] being the last of them. *)
Definition committed (r : Register.t) (w : option Z) : Register.t :=
  match w with
  | None => r
  | Some z =>
      Register.with_value r
        (wrap (Register.bits r)
           (if Register.immutable r then Register.value r else z))
  end.

Definition resolves (len : nat) (u : TraceRegister.t) : Prop :=
  exists p, Py.position len (TraceRegister.id u) = Ok p.

(** The invariant of a register file: a positive width shared by all its
    registers, every stored value within the two's-complement range, and
    a log whose records designate existing registers. *)
Record RegisterFile_ok (rf : RegisterFile.t) : Prop := {
  ok_bits : 1 <= RegisterFile.bits rf;
  ok_regs :
    Forall (fun r => Register.bits r = RegisterFile.bits rf /\
                     wrap (Register.bits r) (Register.value r) = Register.value r)
      (RegisterFile.regs rf);
  ok_log :
    Forall (resolves (length (RegisterFile.regs rf))) (RegisterFile.regs_updates rf)
}.

(** [setitem] for each value of [vs] in turn, on the same key. *)
Fixpoint setitems (self : RegisterFile.t) (key : Z) (vs : list operand)
  : result unit * RegisterFile.t :=
  match vs with
  | [] => (Ok tt, self)
  | v :: vs' =>
      match RegisterFile.setitem self key v with
      | (Ok _, self') => setitems self' key vs'
      | (Raise e, self') => (Raise e, self')
      end
  end.

(** The register file of the RV32 state: 32 registers of 32 bits, [x0]
    hardwired to 0, as [RegisterFile(32, 32, {0: 0x0})] builds it. *)
Definition rv32_intreg : RegisterFile.t :=
  RegisterFile.mk 32 32
    (Register.mk 32 true 0 :: repeat (Register.mk 32 false 0) 31) [].

(** Manual decoding of a [bits]-wide pattern. *)
Definition decode_signed (bits r : Z) : Z :=
  if r <? 2 ^ (bits - 1) then r else r - 2 ^ bits.

(** The value [set_from_bits] hands to [set]. *)
Definition decoded (imm : Immediate.t) (r : Z) : Z :=
  if Immediate.signed imm
  then - Z.land r (2 ^ (Immediate.bits imm - 1))
       + Z.land r (Z.lnot (2 ^ (Immediate.bits imm - 1)))
  else r.

(** The RV32 state with every register 0 and the given [pc]. *)
Definition rv32_state (pc : Z) : State unit := mkState rv32_intreg pc tt.



(** A small 32-bit register file with [x1 = -8], [x2 = 1] committed. *)
Definition small_intreg : RegisterFile.t :=
  RegisterFile.mk 4 32
    [Register.mk 32 true 0; Register.mk 32 false (-8);
     Register.mk 32 false 1; Register.mk 32 false 0] [].

(** The number [Immediate.max] rounds: [2^(bits-1) - 1] when signed,
    [2^bits - 1] otherwise. *)
Definition top (bits : Z) (signed : bool) : Z :=
  if signed then 2 ^ (bits - 1) - 1 else 2 ^ bits - 1.

(** The subscript [k] designates position [p] of a list of [len] items. *)
Definition designates (len : nat) (k : Z) (p : nat) : bool :=
  match Py.position len k with
  | Ok q => Nat.eqb q p
  | Raise _ => false
  end.

(** The value given by the first item of the dict [immutable] whose key
    designates position [p], if there is one. *)
Fixpoint first_item (len p : nat) (items : list (Z * Z)) : option Z :=
  match items with
  | [] => None
  | (k, v) :: items' =>
      if designates len k p then Some v else first_item len p items'
  end.

(** The register [r] once the constructor has gone through the items of
    [immutable], [w] being the first that designates it. *)
Definition hardwired (r : Register.t) (w : option Z) : Register.t :=
  match w with
  | None => r
  | Some v =>
      Register.mk (Register.bits r) true
        (wrap (Register.bits r)
           (if Register.immutable r then Register.value r else v))
  end.

(** The outcome of an instruction whose only effect is
    [model.intreg[rd] = v], [d] being the register [rd] designates and
    [v] the value as the record holds it: nothing when [d] is immutable,
    one more pending record otherwise. *)
Definition written {Mem : Type} (model : State Mem) (rd : Z) (d : Register.t)
  (v : Z) : result unit * State Mem :=
  (Ok tt,
   if Register.immutable d then model
   else mkState
          (RegisterFile.with_updates (intreg model)
             (RegisterFile.regs_updates (intreg model) ++ [TraceRegister.mk rd v]))
          (pc model) (memory model)).

(** * Properties *)

(** ** Two's complement *)

Lemma pow2_split (bits : Z) :
  1 <= bits -> 2 ^ bits = 2 * 2 ^ (bits - 1) /\ 0 < 2 ^ (bits - 1).
Proof.
  intros Hb. split.
  - replace bits with (1 + (bits - 1)) at 1 by lia.
    rewrite Z.pow_add_r by lia. reflexivity.
  - apply Z.pow_pos_nonneg; lia.
Qed.

Lemma wrap_range (bits v : Z) :
  1 <= bits -> - 2 ^ (bits - 1) <= wrap bits v < 2 ^ (bits - 1).
Proof.
  intros Hb. unfold wrap.
  destruct (pow2_split bits Hb) as [E P].
  pose proof (Z.mod_pos_bound (v + 2 ^ (bits - 1)) (2 ^ bits)). lia.
Qed.

Lemma wrap_congruent (bits v : Z) :
  1 <= bits -> (wrap bits v) mod 2 ^ bits = v mod 2 ^ bits.
Proof.
  intros Hb. unfold wrap.
  destruct (pow2_split bits Hb) as [E P].
  rewrite Zminus_mod_idemp_l.
  f_equal. lia.
Qed.

Lemma wrap_small (bits v : Z) :
  1 <= bits -> - 2 ^ (bits - 1) <= v < 2 ^ (bits - 1) -> wrap bits v = v.
Proof.
  intros Hb Hv. unfold wrap.
  destruct (pow2_split bits Hb) as [E P].
  rewrite Z.mod_small by lia. lia.
Qed.

Lemma mask_ones (bits : Z) : Z.shiftl 1 bits - 1 = Z.ones bits.
Proof. rewrite Z.ones_equiv, Z.shiftl_1_l. lia. Qed.

(** The sign test of [Register.set] reads bit [bits-1]. *)
Lemma sign_test (v bits : Z) :
  1 <= bits ->
  negb (Z.land (Z.shiftr v (bits - 1)) 1 =? 0) = (2 ^ (bits - 1) <=? v mod 2 ^ bits).
Proof.
  intros Hb.
  destruct (pow2_split bits Hb) as [E P].
  change (Z.land (Z.shiftr v (bits - 1)) 1)
    with (Z.land (Z.shiftr v (bits - 1)) (Z.ones 1)).
  rewrite Z.land_ones by lia.
  rewrite Z.shiftr_div_pow2 by lia.
  change (2 ^ 1) with 2.
  pose proof (Z.mod_pos_bound v (2 ^ bits) ltac:(lia)) as Hm.
  pose proof (Z.div_mod v (2 ^ bits) ltac:(lia)) as Hd.
  set (q := v / 2 ^ bits) in *. set (r := v mod 2 ^ bits) in *.
  set (m := 2 ^ (bits - 1)) in *.
  assert (Hv : v = m * (2 * q) + r) by lia.
  rewrite Hv.
  rewrite Z.mul_comm, Z.div_add_l by lia.
  rewrite Z.add_comm, Z.mul_comm, Z_mod_plus_full.
  destruct (Z.leb_spec m r).
  - rewrite <- (Zdiv.Zdiv_unique r m 1 (r - m)) by lia. reflexivity.
  - rewrite Z.div_small by lia. reflexivity.
Qed.

Lemma sign_extend (v bits : Z) :
  1 <= bits ->
  Z.lor v (Z.lnot (Z.ones bits)) = v mod 2 ^ bits - 2 ^ bits.
Proof.
  intros Hb.
  destruct (pow2_split bits Hb) as [E P].
  rewrite <- (Z.lnot_involutive v) at 1.
  rewrite <- Z.lnot_land, Z.land_ones by lia.
  unfold Z.lnot at 1. 
  pose proof (Z.mod_pos_bound v (2 ^ bits) ltac:(lia)) as Hm.
  pose proof (Z.div_mod v (2 ^ bits) ltac:(lia)) as Hd.
  assert (Hn : Z.lnot v = 2 ^ bits * (- (v / 2 ^ bits) - 1) + (2 ^ bits - 1 - v mod 2 ^ bits)).
  { unfold Z.lnot. lia. }
  rewrite Hn.
  rewrite Z.add_comm, Z.mul_comm, Z_mod_plus_full.
  rewrite Z.mod_small by lia. lia.
Qed.

(** What [Register.set] leaves in a mutable register. *)
Lemma set_value_wrap (v bits : Z) :
  1 <= bits ->
  (if negb (Z.land (Z.shiftr v (bits - 1)) 1 =? 0)
   then Z.lor v (Z.lnot (Z.shiftl 1 bits - 1))
   else Z.land v (Z.shiftl 1 bits - 1)) = wrap bits v.
Proof.
  intros Hb.
  destruct (pow2_split bits Hb) as [E P].
  rewrite sign_test, mask_ones by lia.
  rewrite sign_extend, Z.land_ones by lia.
  unfold wrap.
  pose proof (Z.mod_pos_bound v (2 ^ bits) ltac:(lia)) as Hm.
  pose proof (Z.div_mod v (2 ^ bits) ltac:(lia)) as Hd.
  set (q := v / 2 ^ bits) in *. set (r := v mod 2 ^ bits) in *.
  set (m := 2 ^ (bits - 1)) in *.
  destruct (Z.leb_spec m r).
  - replace (v + m) with (r + m - 2 ^ bits + (q + 1) * 2 ^ bits) by lia.
    rewrite Z_mod_plus_full, Z.mod_small by lia. lia.
  - replace (v + m) with (r + m + q * 2 ^ bits) by lia.
    rewrite Z_mod_plus_full, Z.mod_small by lia. lia.
Qed.

(** ** Register *)

Lemma Register_init_ok (bits : Z) :
  0 <= bits -> Register.init bits = Ok (Register.mk bits false 0).
Proof.
  intros Hb. unfold Register.init, Py.lshift.
  destruct (Z.ltb_spec bits 0); [lia | reflexivity].
Qed.

(** On a register of width at least 1, [set] cannot raise; it stores the
    wrapped operand, or re-wraps the old value of an immutable register. *)
Lemma Register_set_ok (r : Register.t) (v : operand) :
  1 <= Register.bits r ->
  Register.set r v =
    (Ok tt,
     Register.with_value r
       (wrap (Register.bits r)
          (if Register.immutable r then Register.value r else py_int v))).
Proof.
  intros Hb. destruct r as [b i x]. simpl in Hb.
  unfold Register.set, Py.rshift, Register.mask, Register.with_value.
  destruct i; simpl.
  - destruct (Z.ltb_spec (b - 1) 0); [lia |].
    rewrite <- (set_value_wrap x b Hb).
    destruct (negb _); reflexivity.
  - destruct (Z.ltb_spec (b - 1) 0); [lia |].
    rewrite <- (set_value_wrap (py_int v) b Hb).
    destruct (negb _); reflexivity.
Qed.

Lemma Register_fresh_ok (self : Register.t) (v : Z) :
  1 <= Register.bits self ->
  Register.fresh self v =
    Ok (Register.mk (Register.bits self) false (wrap (Register.bits self) v)).
Proof.
  intros Hb. unfold Register.fresh.
  rewrite Register_init_ok by lia. simpl.
  rewrite Register_set_ok by (simpl; lia). reflexivity.
Qed.

Lemma unsigned_wrap (b v : Z) :
  1 <= b ->
  Register.unsigned (Register.mk b false (wrap b v)) = v mod 2 ^ b.
Proof.
  intros Hb. unfold Register.unsigned, Register.mask. simpl.
  rewrite mask_ones, Z.land_ones by lia.
  apply wrap_congruent; assumption.
Qed.

(** C4. A [bits]-wide Register holding [2^(bits-1)-1] plus 1 is a
    Register of the same width holding [-2^(bits-1)], whose [unsigned()]
    is [2^(bits-1)].  Each of [+ - & | ^ << >>] computes on the unbounded
    integers (a negative shift count being Python's ValueError), builds
    the result at the left operand's width, and stores it re-wrapped; the
    wrapped value lies in the two's-complement range of that width and
    agrees with the unbounded one modulo [2^bits]. *)
Theorem register_operators_wrap (bits : Z) (imm : bool) (x : Z) (other : operand) :
  1 <= bits ->
  let top := Register.mk bits imm (2 ^ (bits - 1) - 1) in
  let self := Register.mk bits imm x in
  (exists r,
      Register.add top (OInt 1) = Ok r /\
      Register.bits r = bits /\
      Register.value r = - 2 ^ (bits - 1) /\
      Register.unsigned r = 2 ^ (bits - 1)) /\
  Register.add self other = rewrapped self (x + py_int other) /\
  Register.sub self other = rewrapped self (x - py_int other) /\
  Register.and self other = rewrapped self (Z.land x (py_int other)) /\
  Register.or self other = rewrapped self (Z.lor x (py_int other)) /\
  Register.xor self other = rewrapped self (Z.lxor x (py_int other)) /\
  Register.lshift self other =
    (z <- Py.lshift x (py_int other) ;; rewrapped self z) /\
  Register.rshift self other =
    (z <- Py.rshift x (py_int other) ;; rewrapped self z) /\
  (forall z, - 2 ^ (bits - 1) <= wrap bits z < 2 ^ (bits - 1) /\
             wrap bits z mod 2 ^ bits = z mod 2 ^ bits).
Proof.
  intros Hb top self.
  destruct (pow2_split bits Hb) as [E P].
  assert (Hs : 1 <= Register.bits self) by exact Hb.
  repeat split.
  - exists (Register.mk bits false (- 2 ^ (bits - 1))).
    unfold Register.add. rewrite Register_fresh_ok by exact Hb.
    assert (W : wrap bits (2 ^ (bits - 1) - 1 + 1) = - 2 ^ (bits - 1)).
    { unfold wrap.
      replace (2 ^ (bits - 1) - 1 + 1 + 2 ^ (bits - 1))
        with (0 + 1 * 2 ^ bits) by lia.
      rewrite Z_mod_plus_full, Z.mod_0_l by lia. lia. }
    simpl. rewrite W. repeat split.
    rewrite <- W at 1. rewrite unsigned_wrap by exact Hb.
    replace (2 ^ (bits - 1) - 1 + 1) with (2 ^ (bits - 1)) by lia.
    apply Z.mod_small. lia.
  - unfold Register.add. apply Register_fresh_ok, Hs.
  - unfold Register.sub. apply Register_fresh_ok, Hs.
  - unfold Register.and. destruct other; apply Register_fresh_ok, Hs.
  - unfold Register.or. destruct other; apply Register_fresh_ok, Hs.
  - unfold Register.xor. destruct other; apply Register_fresh_ok, Hs.
  - unfold Register.lshift. rewrite Register_init_ok by (simpl; lia).
    destruct other; simpl;
      match goal with
      | |- context [Py.lshift ?a ?n] => destruct (Py.lshift a n); simpl
      end; try reflexivity; apply Register_fresh_ok, Hs.
  - unfold Register.rshift. rewrite Register_init_ok by (simpl; lia).
    destruct other; simpl;
      match goal with
      | |- context [Py.rshift ?a ?n] => destruct (Py.rshift a n); simpl
      end; try reflexivity; apply Register_fresh_ok, Hs.
  - apply wrap_range, Hb.
  - apply wrap_range, Hb.
  - apply wrap_congruent, Hb.
Qed.

Lemma register_operators_wrap_witness :
  1 <= 32 /\
  Register.add (Register.mk 32 false 2147483647) (OInt 1)
    = Ok (Register.mk 32 false (-2147483648)) /\
  Register.rshift (Register.mk 32 false (-8)) (OInt 1)
    = Ok (Register.mk 32 false (-4)).
Proof.
  split; [lia |].
  pose proof (register_operators_wrap 32 false 2147483647 (OInt 1) ltac:(lia))
    as (_ & Hadd & _).
  pose proof (register_operators_wrap 32 false (-8) (OInt 1) ltac:(lia))
    as (_ & _ & _ & _ & _ & _ & _ & Hshr & _).
  split; [exact Hadd | exact Hshr].
Defined.

(** ** Lists subscripted the Python way *)

Lemma replace_length {A : Type} (p : nat) (a : A) (l : list A) :
  length (Py.replace p a l) = length l.
Proof.
  revert p. induction l as [| x l IH]; intros [| p]; simpl; auto.
Qed.

Lemma nth_error_replace_eq {A : Type} (p : nat) (a : A) (l : list A) :
  (p < length l)%nat -> nth_error (Py.replace p a l) p = Some a.
Proof.
  revert p. induction l as [| x l IH]; intros [| p] Hp; simpl in *;
    try lia; auto. apply IH. lia.
Qed.

Lemma nth_error_replace_neq {A : Type} (p q : nat) (a : A) (l : list A) :
  p <> q -> nth_error (Py.replace p a l) q = nth_error l q.
Proof.
  revert p q. induction l as [| x l IH]; intros [| p] [| q] Hpq; simpl;
    try congruence; auto.
Qed.

Lemma position_lt (len : nat) (i : Z) (p : nat) :
  Py.position len i = Ok p -> (p < len)%nat.
Proof.
  unfold Py.position.
  destruct (Z.leb_spec 0 i), (Z.ltb_spec i (Z.of_nat len)); simpl;
    try (intros [= <-]; lia);
    destruct (Z.leb_spec (- Z.of_nat len) i), (Z.ltb_spec i 0); simpl;
    try discriminate; intros [= <-]; lia.
Qed.

Lemma getitem_inv {A : Type} (l : list A) (i : Z) (a : A) :
  Py.getitem l i = Ok a ->
  exists p, Py.position (length l) i = Ok p /\ nth_error l p = Some a.
Proof.
  unfold Py.getitem. destruct (Py.position (length l) i) as [p |]; [| discriminate].
  destruct (nth_error l p) as [x |] eqn:E; [| discriminate].
  intros [= ->]. exists p. auto.
Qed.

Lemma getitem_intro {A : Type} (l : list A) (i : Z) (p : nat) (a : A) :
  Py.position (length l) i = Ok p -> nth_error l p = Some a ->
  Py.getitem l i = Ok a.
Proof. unfold Py.getitem. intros -> ->. reflexivity. Qed.

Lemma position_getitem {A : Type} (l : list A) (i : Z) (p : nat) :
  Py.position (length l) i = Ok p -> exists a, nth_error l p = Some a.
Proof.
  intros H. apply position_lt in H.
  destruct (nth_error l p) eqn:E; [eauto |].
  apply nth_error_None in E. lia.
Qed.

(** ** RegisterFile *)

Lemma wrap_idempotent (b v : Z) : 1 <= b -> wrap b (wrap b v) = wrap b v.
Proof. intros Hb. apply wrap_small; [assumption | apply wrap_range; assumption]. Qed.

Lemma last_write_app (len p : nat) (us : list TraceRegister.t) (u : TraceRegister.t) :
  targets len u p = true ->
  last_write len p (us ++ [u]) = Some (TraceRegister.value u).
Proof.
  intros Ht. induction us as [| x us IH]; simpl.
  - rewrite Ht. reflexivity.
  - rewrite IH. reflexivity.
Qed.

Lemma last_write_none (len p : nat) (us : list TraceRegister.t) :
  Forall (fun u => targets len u p = false) us -> last_write len p us = None.
Proof.
  induction 1 as [| u us Hu _ IH]; simpl; [reflexivity |].
  rewrite IH, Hu. reflexivity.
Qed.

Lemma commit_loop_ok (us : list TraceRegister.t) :
  forall rs : list Register.t,
    Forall (fun r => 1 <= Register.bits r) rs ->
    Forall (resolves (length rs)) us ->
    exists rs',
      RegisterFile.commit_loop rs us = (Ok tt, rs') /\
      length rs' = length rs /\
      forall p r, nth_error rs p = Some r ->
                  nth_error rs' p = Some (committed r (last_write (length rs) p us)).
Proof.
  induction us as [| u us IH]; intros rs Hrs Hus.
  - exists rs. simpl. auto.
  - inversion Hus as [| ? ? [p0 Hp0] Hus']; subst.
    destruct (position_getitem rs _ _ Hp0) as [r0 Hr0].
    assert (Hb0 : 1 <= Register.bits r0).
    { rewrite Forall_forall in Hrs. apply Hrs. eapply nth_error_In; eauto. }
    simpl. rewrite Hp0, (getitem_intro _ _ _ _ Hp0 Hr0).
    rewrite Register_set_ok by exact Hb0.
    set (r0' := Register.with_value r0 _).
    destruct (IH (Py.replace p0 r0' rs)) as (rs' & Hloop & Hlen & Hnth).
    + rewrite Forall_forall in *. intros r Hin.
      apply In_nth_error in Hin as [q Hq].
      destruct (Nat.eq_dec p0 q) as [-> | Hne].
      * rewrite nth_error_replace_eq in Hq by (eapply position_lt; eauto).
        injection Hq as <-. exact Hb0.
      * rewrite nth_error_replace_neq in Hq by exact Hne.
        apply Hrs. eapply nth_error_In; eauto.
    + rewrite replace_length. exact Hus'.
    + exists rs'. rewrite replace_length in *. repeat split; auto.
      intros p r Hr. unfold targets. rewrite Hp0.
      destruct (Nat.eqb_spec p0 p) as [-> | Hne].
      * assert (r = r0) by congruence. subst r.
        rewrite (Hnth p r0') by
          (apply nth_error_replace_eq; eapply position_lt; eauto).
        f_equal. destruct (last_write (length rs) p us) as [z |]; [| reflexivity].
        subst r0'. destruct r0 as [b i x]. simpl in *.
        unfold Register.with_value. simpl.
        destruct i; [rewrite wrap_idempotent by exact Hb0 |]; reflexivity.
      * rewrite (Hnth p r) by (rewrite nth_error_replace_neq; auto).
        destruct (last_write (length rs) p us); reflexivity.
Qed.

Lemma setitem_mutable (rf : RegisterFile.t) (key : Z) (v : operand) (r : Register.t) :
  1 <= RegisterFile.bits rf ->
  RegisterFile.getitem rf key = Ok r ->
  Register.immutable r = false ->
  RegisterFile.setitem rf key v =
    (Ok tt,
     RegisterFile.with_updates rf
       (RegisterFile.regs_updates rf ++
          [TraceRegister.mk key (wrap (RegisterFile.bits rf) (py_int v))])).
Proof.
  intros Hb Hr Hi. unfold RegisterFile.setitem, RegisterFile.getitem in *.
  rewrite Hr, Hi. simpl.
  rewrite Register_init_ok by lia.
  rewrite Register_set_ok by (simpl; lia). reflexivity.
Qed.

Lemma setitem_immutable (rf : RegisterFile.t) (key : Z) (v : operand) (r : Register.t) :
  RegisterFile.getitem rf key = Ok r ->
  Register.immutable r = true ->
  RegisterFile.setitem rf key v = (Ok tt, rf).
Proof.
  intros Hr Hi. unfold RegisterFile.setitem, RegisterFile.getitem in *.
  rewrite Hr, Hi. reflexivity.
Qed.

Lemma setitem_raise (rf rf' : RegisterFile.t) (key : Z) (v : operand) (e : exn) :
  RegisterFile.setitem rf key v = (Raise e, rf') -> rf' = rf.
Proof.
  unfold RegisterFile.setitem.
  destruct (Py.getitem (RegisterFile.regs rf) key) as [r |]; [| congruence].
  destruct (negb (Register.immutable r)); [| congruence].
  destruct (Register.init (RegisterFile.bits rf)) as [reg |]; [| congruence].
  destruct (Register.set reg v) as [[[] |] reg']; congruence.
Qed.

Lemma ok_append (rf : RegisterFile.t) (u : TraceRegister.t) :
  RegisterFile_ok rf ->
  resolves (length (RegisterFile.regs rf)) u ->
  RegisterFile_ok
    (RegisterFile.with_updates rf (RegisterFile.regs_updates rf ++ [u])).
Proof.
  intros [Hb Hrs Hus] Hu. constructor; simpl; auto.
  apply Forall_app. split; auto.
Qed.

Lemma commit_ok (rf : RegisterFile.t) :
  RegisterFile_ok rf ->
  exists rs',
    RegisterFile.commit rf =
      (Ok tt, RegisterFile.mk (RegisterFile.num rf) (RegisterFile.bits rf) rs' []) /\
    length rs' = length (RegisterFile.regs rf) /\
    forall p r,
      nth_error (RegisterFile.regs rf) p = Some r ->
      nth_error rs' p =
        Some (committed r
                (last_write (length (RegisterFile.regs rf)) p
                   (RegisterFile.regs_updates rf))).
Proof.
  intros [Hb Hrs Hus].
  destruct (commit_loop_ok (RegisterFile.regs_updates rf) (RegisterFile.regs rf))
    as (rs' & Hloop & Hlen & Hnth); auto.
  { eapply Forall_impl; [| exact Hrs]. simpl. intros r [-> _]. exact Hb. }
  exists rs'. unfold RegisterFile.commit. rewrite Hloop. auto.
Qed.

Lemma committed_settled (b : Z) (r : Register.t) (w : option Z) :
  1 <= b ->
  Register.bits r = b /\ wrap (Register.bits r) (Register.value r) = Register.value r ->
  Register.bits (committed r w) = b /\
  wrap (Register.bits (committed r w)) (Register.value (committed r w))
    = Register.value (committed r w).
Proof.
  intros Hb [Hbr Hv]. destruct w as [z |]; simpl; auto.
  split; [exact Hbr |]. apply wrap_idempotent. lia.
Qed.

Lemma commit_preserves_ok (rf rf' : RegisterFile.t) :
  RegisterFile_ok rf ->
  RegisterFile.commit rf = (Ok tt, rf') ->
  RegisterFile_ok rf'.
Proof.
  intros Hok Hc.
  destruct (commit_ok rf Hok) as (rs' & Hc' & Hlen & Hnth).
  rewrite Hc' in Hc. injection Hc as <-.
  destruct Hok as [Hb Hrs Hus].
  constructor; simpl; auto.
  rewrite Forall_forall in *. intros r' Hin.
  apply In_nth_error in Hin as [p Hp].
  destruct (nth_error (RegisterFile.regs rf) p) as [r |] eqn:Hr.
  - rewrite (Hnth p r Hr) in Hp. injection Hp as <-.
    apply committed_settled; [exact Hb |].
    apply Hrs. eapply nth_error_In; eauto.
  - apply nth_error_None in Hr.
    assert (p < length rs')%nat by (apply nth_error_Some; congruence). lia.
Qed.

Lemma Forall_replace {A : Type} (P : A -> Prop) (p : nat) (a : A) (l : list A) :
  Forall P l -> P a -> Forall P (Py.replace p a l).
Proof.
  intros Hl Ha. revert p.
  induction Hl as [| x l Hx Hl IH]; intros [| p]; simpl; auto.
Qed.

Lemma init_regs_ok (n : nat) (bits : Z) :
  0 <= bits ->
  RegisterFile.init_regs n bits = Ok (repeat (Register.mk bits false 0) n).
Proof.
  intros Hb. induction n as [| n IH]; simpl; [reflexivity |].
  rewrite Register_init_ok, IH by exact Hb. reflexivity.
Qed.

Lemma init_immutable_ok (b : Z) (items : list (Z * Z)) :
  1 <= b ->
  forall rs : list Register.t,
    Forall (fun r => Register.bits r = b /\
                     wrap (Register.bits r) (Register.value r) = Register.value r) rs ->
    Forall (fun kv => exists p, Py.position (length rs) (fst kv) = Ok p) items ->
    exists rs',
      RegisterFile.init_immutable rs items = Ok rs' /\
      length rs' = length rs /\
      Forall (fun r => Register.bits r = b /\
                       wrap (Register.bits r) (Register.value r) = Register.value r) rs'.
Proof.
  intros Hb. induction items as [| [k v] items IH]; intros rs Hrs Hks.
  - exists rs. simpl. auto.
  - inversion Hks as [| ? ? [p Hp] Hks']; subst. simpl in Hp.
    destruct (position_getitem rs _ _ Hp) as [r Hr].
    assert (Hsr : Register.bits r = b /\
                  wrap (Register.bits r) (Register.value r) = Register.value r).
    { rewrite Forall_forall in Hrs. apply Hrs. eapply nth_error_In; eauto. }
    simpl. rewrite Hp, (getitem_intro _ _ _ _ Hp Hr). simpl.
    rewrite Register_set_ok by lia.
    destruct (IH (Py.replace p
                    (Register.set_immutable
                       (Register.with_value r
                          (wrap (Register.bits r)
                             (if Register.immutable r then Register.value r
                              else py_int (OInt v)))) true) rs))
      as (rs' & Hi & Hlen & Hrs').
    + apply Forall_replace; [exact Hrs |]. simpl.
      split; [apply Hsr |]. apply wrap_idempotent. lia.
    + rewrite replace_length. exact Hks'.
    + exists rs'. rewrite replace_length in Hlen. auto.
Qed.

(** The constructor establishes the invariant, with an empty log. *)
Lemma init_ok (num bits : Z) (items : list (Z * Z)) :
  1 <= bits ->
  Forall (fun kv => exists p, Py.position (Z.to_nat num) (fst kv) = Ok p) items ->
  exists rf,
    RegisterFile.init num bits items = Ok rf /\
    RegisterFile_ok rf /\
    RegisterFile.regs_updates rf = [] /\
    length (RegisterFile.regs rf) = Z.to_nat num.
Proof.
  intros Hb Hks. unfold RegisterFile.init.
  rewrite init_regs_ok by lia. simpl.
  destruct (init_immutable_ok bits items Hb (repeat (Register.mk bits false 0) (Z.to_nat num)))
    as (rs' & Hi & Hlen & Hrs').
  - apply Forall_forall. intros r Hin. apply repeat_spec in Hin. subst r. simpl.
    split; [reflexivity |]. apply wrap_small; [exact Hb |].
    destruct (pow2_split bits Hb). lia.
  - rewrite repeat_length. exact Hks.
  - rewrite Hi. simpl. rewrite repeat_length in Hlen.
    eexists. split; [reflexivity |]. repeat split; simpl; auto.
Qed.

(** C3. Writes are deferred.  On a register file satisfying its
    invariant: [__setitem__] on an index whose register is not immutable
    appends the record (index, value wrapped to the file's width) and
    leaves every [__getitem__] as it was; [commit()] succeeds, empties
    the log and leaves in each register the value of the last-appended
    record that designates it (untouched registers stay as they are), so
    of two pending writes to one index the later one decides;
    [changes()] returns the pending records and leaves the file,
    its log included, as it is. *)
Theorem registerfile_deferred_writes (rf : RegisterFile.t) :
  RegisterFile_ok rf ->
  (forall key v r,
      RegisterFile.getitem rf key = Ok r ->
      Register.immutable r = false ->
      let u := TraceRegister.mk key (wrap (RegisterFile.bits rf) (py_int v)) in
      let rf1 := RegisterFile.with_updates rf (RegisterFile.regs_updates rf ++ [u]) in
      RegisterFile.setitem rf key v = (Ok tt, rf1) /\
      (forall i, RegisterFile.getitem rf1 i = RegisterFile.getitem rf i) /\
      RegisterFile.changes rf1 = (RegisterFile.regs_updates rf ++ [u], rf1) /\
      RegisterFile_ok rf1) /\
  (exists rs',
      RegisterFile.commit rf =
        (Ok tt, RegisterFile.mk (RegisterFile.num rf) (RegisterFile.bits rf) rs' []) /\
      length rs' = length (RegisterFile.regs rf) /\
      forall p r,
        nth_error (RegisterFile.regs rf) p = Some r ->
        nth_error rs' p =
          Some (committed r
                  (last_write (length (RegisterFile.regs rf)) p
                     (RegisterFile.regs_updates rf)))) /\
  (forall key v1 v2 r,
      RegisterFile.getitem rf key = Ok r ->
      Register.immutable r = false ->
      exists rf1 rf2 rf3,
        RegisterFile.setitem rf key v1 = (Ok tt, rf1) /\
        RegisterFile.setitem rf1 key v2 = (Ok tt, rf2) /\
        RegisterFile.commit rf2 = (Ok tt, rf3) /\
        RegisterFile.regs_updates rf3 = [] /\
        RegisterFile.getitem rf3 key =
          Ok (Register.with_value r (wrap (RegisterFile.bits rf) (py_int v2)))) /\
  RegisterFile.changes rf = (RegisterFile.regs_updates rf, rf).
Proof.
  intros Hok.
  assert (Hstep : forall rf key v r,
             RegisterFile_ok rf ->
             RegisterFile.getitem rf key = Ok r ->
             Register.immutable r = false ->
             let u := TraceRegister.mk key (wrap (RegisterFile.bits rf) (py_int v)) in
             let rf1 := RegisterFile.with_updates rf (RegisterFile.regs_updates rf ++ [u]) in
             RegisterFile.setitem rf key v = (Ok tt, rf1) /\ RegisterFile_ok rf1).
  { clear. intros rf key v r Hok Hr Hi u rf1. split.
    - apply (setitem_mutable rf key v r); auto. apply Hok.
    - apply ok_append; [exact Hok |].
      apply getitem_inv in Hr as (p & Hp & _). exists p. exact Hp. }
  split; [| split; [| split; [| reflexivity]]].
  - intros key v r Hr Hi u rf1.
    destruct (Hstep rf key v r Hok Hr Hi) as [Hs1 Hok1].
    split; [exact Hs1 |]. split; [reflexivity |]. split; [reflexivity | exact Hok1].
  - apply commit_ok, Hok.
  - intros key v1 v2 r Hr Hi.
    destruct (Hstep rf key v1 r Hok Hr Hi) as [Hs1 Hok1].
    set (rf1 := RegisterFile.with_updates rf _) in *.
    destruct (Hstep rf1 key v2 r Hok1 Hr Hi) as [Hs2 Hok2].
    set (rf2 := RegisterFile.with_updates rf1 _) in *.
    destruct (commit_ok rf2 Hok2) as (rs' & Hc & Hlen & Hnth).
    exists rf1, rf2, (RegisterFile.mk (RegisterFile.num rf2) (RegisterFile.bits rf2) rs' []).
    repeat split; auto.
    apply getitem_inv in Hr as (p & Hp & Hpr).
    unfold RegisterFile.getitem. simpl.
    apply getitem_intro with (p := p).
    + rewrite Hlen. exact Hp.
    + simpl in Hnth. rewrite (Hnth p r Hpr).
      rewrite last_write_app by (unfold targets; simpl; rewrite Hp; apply Nat.eqb_refl).
      simpl. rewrite Hi.
      destruct Hok as [Hb Hrs _]. rewrite Forall_forall in Hrs.
      destruct (Hrs r (nth_error_In _ _ Hpr)) as [-> _].
      rewrite wrap_idempotent by exact Hb. reflexivity.
Qed.

Lemma rv32_intreg_init : RegisterFile.init 32 32 [(0, 0)] = Ok rv32_intreg.
Proof. reflexivity. Qed.

Lemma rv32_intreg_ok : RegisterFile_ok rv32_intreg.
Proof.
  constructor; simpl.
  - lia.
  - repeat (constructor; [split; reflexivity |]). constructor.
  - constructor.
Defined.

Lemma registerfile_deferred_writes_witness :
  RegisterFile_ok rv32_intreg /\
  (exists rf1 rf2 rf3,
      RegisterFile.setitem rv32_intreg 5 (OInt 10) = (Ok tt, rf1) /\
      RegisterFile.getitem rf1 5 = Ok (Register.mk 32 false 0) /\
      RegisterFile.setitem rf1 5 (OInt (-1)) = (Ok tt, rf2) /\
      RegisterFile.commit rf2 = (Ok tt, rf3) /\
      RegisterFile.getitem rf3 5 = Ok (Register.mk 32 false (-1))).
Proof.
  split; [exact rv32_intreg_ok |].
  destruct (registerfile_deferred_writes rv32_intreg rv32_intreg_ok)
    as (_ & _ & Hlater & _).
  destruct (Hlater 5 (OInt 10) (OInt (-1)) (Register.mk 32 false 0)
              eq_refl eq_refl)
    as (rf1 & rf2 & rf3 & H1 & H2 & H3 & _ & H4).
  exists rf1, rf2, rf3. repeat split; auto.
  injection H1 as <-. reflexivity.
Defined.

(** C7. Writes to an immutable register are discarded.  On a register
    file satisfying its invariant, if the index designates an immutable
    register, any sequence of [__setitem__] on that index succeeds and
    leaves the file, pending log included, exactly as it was, and after
    [commit()] the index still reads the register it read before. *)
Theorem immutable_register_discards_writes
  (rf : RegisterFile.t) (key : Z) (r : Register.t) (vs : list operand) :
  RegisterFile_ok rf ->
  RegisterFile.getitem rf key = Ok r ->
  Register.immutable r = true ->
  setitems rf key vs = (Ok tt, rf) /\
  exists rf',
    RegisterFile.commit rf = (Ok tt, rf') /\
    RegisterFile.getitem rf' key = Ok r.
Proof.
  intros Hok Hr Hi. split.
  - induction vs as [| v vs IH]; simpl; [reflexivity |].
    rewrite (setitem_immutable rf key v r Hr Hi). exact IH.
  - destruct (commit_ok rf Hok) as (rs' & Hc & Hlen & Hnth).
    eexists. split; [exact Hc |].
    apply getitem_inv in Hr as (p & Hp & Hpr).
    unfold RegisterFile.getitem. simpl.
    apply getitem_intro with (p := p); [rewrite Hlen; exact Hp |].
    rewrite (Hnth p r Hpr). f_equal.
    destruct (last_write _ p _) as [z |]; [| reflexivity].
    simpl. rewrite Hi.
    destruct Hok as [_ Hrs _]. rewrite Forall_forall in Hrs.
    destruct (Hrs r (nth_error_In _ _ Hpr)) as [_ ->].
    destruct r; reflexivity.
Qed.

Lemma immutable_register_discards_writes_witness :
  RegisterFile_ok rv32_intreg /\
  RegisterFile.getitem rv32_intreg 0 = Ok (Register.mk 32 true 0) /\
  setitems rv32_intreg 0 [OInt 5; OInt (-7)] = (Ok tt, rv32_intreg) /\
  exists rf',
    RegisterFile.commit rv32_intreg = (Ok tt, rf') /\
    RegisterFile.getitem rf' 0 = Ok (Register.mk 32 true 0).
Proof.
  split; [exact rv32_intreg_ok |]. split; [reflexivity |].
  exact (immutable_register_discards_writes rv32_intreg 0
           (Register.mk 32 true 0) [OInt 5; OInt (-7)]
           rv32_intreg_ok eq_refl eq_refl).
Defined.

(** ** Immediate *)

Lemma Immediate_set_raise (imm imm' : Immediate.t) (v : Z) (e : exn) :
  Immediate.set imm v = (Raise e, imm') ->
  e = InvalidImmediateException /\ imm' = imm.
Proof.
  unfold Immediate.set.
  repeat match goal with
         | |- context [if ?c then _ else _] => destruct c
         end; intros [= <- <-]; auto.
Qed.

(** C9, amended.  [RegisterFile.__setitem__] validates no range: with a
    width of at least one bit and an index that designates a mutable
    register it returns normally for every value and appends the record
    (index, value wrapped to the width).  Whenever it raises (an index
    that designates no register, a width below one bit) the register
    file it leaves is the one it was given, so nothing has been
    appended to the pending log.  Whenever [Immediate.set] raises, the
    exception is InvalidImmediate and the Immediate, stored value
    included, is unchanged.  Whenever [lui] or [jal] raises, be it from
    building the shifted Immediate or from the register write, the state
    is the one before the instruction. *)
Theorem failed_construction_mutates_nothing :
  (forall rf key v r,
      1 <= RegisterFile.bits rf ->
      RegisterFile.getitem rf key = Ok r ->
      Register.immutable r = false ->
      RegisterFile.setitem rf key v =
        (Ok tt,
         RegisterFile.with_updates rf
           (RegisterFile.regs_updates rf ++
              [TraceRegister.mk key (wrap (RegisterFile.bits rf) (py_int v))]))) /\
  (forall rf key v e rf',
      RegisterFile.setitem rf key v = (Raise e, rf') ->
      rf' = rf /\ RegisterFile.regs_updates rf' = RegisterFile.regs_updates rf) /\
  (forall imm v e imm',
      Immediate.set imm v = (Raise e, imm') ->
      e = InvalidImmediateException /\
      imm' = imm /\ Immediate.value imm' = Immediate.value imm) /\
  (forall (Mem : Type) (model model' : State Mem) self e,
      InstructionLUI_execute self model = (Raise e, model') -> model' = model) /\
  (forall (Mem : Type) (model model' : State Mem) self e,
      InstructionJAL_execute self model = (Raise e, model') -> model' = model).
Proof.
  assert (Hw : forall (Mem : Type) (model model' : State Mem) key v e,
             intreg_setitem model key v = (Raise e, model') -> model' = model).
  { intros Mem model model' key v e. unfold intreg_setitem.
    destruct (RegisterFile.setitem (intreg model) key v) as [o rf] eqn:E.
    intros [= -> <-]. apply setitem_raise in E. subst rf.
    destruct model; reflexivity. }
  split; [| split; [| split; [| split]]].
  - intros rf key v r Hb Hr Hi. apply (setitem_mutable rf key v r Hb Hr Hi).
  - intros rf key v e rf' H. apply setitem_raise in H. subst. auto.
  - intros imm v e imm' H. apply Immediate_set_raise in H as [-> ->]. auto.
  - intros Mem model model' self e. unfold InstructionLUI_execute.
    destruct (Immediate.lshift (u_imm self) 12) as [v |].
    + apply Hw.
    + intros [= _ <-]. reflexivity.
  - intros Mem model model' self e. unfold InstructionJAL_execute.
    destruct (intreg_setitem model (j_rd self) (OInt (pc model + 4)))
      as [[[] | e'] m] eqn:E.
    + discriminate.
    + intros [= _ <-]. eapply Hw. exact E.
Qed.

Lemma failed_construction_mutates_nothing_witness :
  (1 <= RegisterFile.bits rv32_intreg /\
   RegisterFile.getitem rv32_intreg 5 = Ok (Register.mk 32 false 0) /\
   RegisterFile.setitem rv32_intreg 5 (OInt (2 ^ 40 + 7))
     = (Ok tt, RegisterFile.with_updates rv32_intreg [TraceRegister.mk 5 7])) /\
  (let out := RegisterFile.setitem rv32_intreg 32 (OInt 5) in
   out = (Raise IndexError, snd out) /\
   snd out = rv32_intreg /\
   RegisterFile.regs_updates (snd out) = RegisterFile.regs_updates rv32_intreg) /\
  (let rf := RegisterFile.mk 1 0 [Register.mk 0 false 0] [] in
   let out := RegisterFile.setitem rf 0 (OInt 5) in
   out = (Raise ValueError, snd out) /\
   snd out = rf /\
   RegisterFile.regs_updates (snd out) = RegisterFile.regs_updates rf) /\
  (let imm := Immediate.mk 12 false false 7 in
   let out := Immediate.set imm (-1) in
   out = (Raise InvalidImmediateException, snd out) /\
   InvalidImmediateException = InvalidImmediateException /\
   snd out = imm /\ Immediate.value (snd out) = Immediate.value imm) /\
  (let model := rv32_state 100 in
   let out := InstructionLUI_execute (mkU 32 (Immediate.mk 20 false false 1)) model in
   out = (Raise IndexError, snd out) /\ snd out = model) /\
  (let model := rv32_state 100 in
   let out := InstructionJAL_execute (mkJ 32 (Immediate.mk 21 true true 8)) model in
   out = (Raise IndexError, snd out) /\ snd out = model).
Proof.
  destruct failed_construction_mutates_nothing as (Hok & Hrf & Himm & Hlui & Hjal).
  split; [| split; [| split; [| split; [| split]]]]; cbv zeta.
  - split; [simpl; lia |]. split; [reflexivity |].
    apply (Hok rv32_intreg 5 (OInt (2 ^ 40 + 7)) (Register.mk 32 false 0));
      [simpl; lia | reflexivity | reflexivity].
  - split; [reflexivity |].
    apply (Hrf rv32_intreg 32 (OInt 5) IndexError). reflexivity.
  - split; [reflexivity |].
    apply (Hrf (RegisterFile.mk 1 0 [Register.mk 0 false 0] []) 0 (OInt 5) ValueError).
    reflexivity.
  - split; [reflexivity |].
    apply (Himm (Immediate.mk 12 false false 7) (-1) InvalidImmediateException).
    reflexivity.
  - split; [reflexivity |].
    apply (Hlui unit (rv32_state 100) _ (mkU 32 (Immediate.mk 20 false false 1))
             IndexError).
    reflexivity.
  - split; [reflexivity |].
    apply (Hjal unit (rv32_state 100) _ (mkJ 32 (Immediate.mk 21 true true 8))
             IndexError).
    reflexivity.
Defined.

(** C9 as stated fails.  The write [x5 = 2^40 + 7] to a 32-bit file
    meets no range validation: the value is far outside
    [-2^31 .. 2^31 - 1], yet the write returns normally and appends the
    record (5, 7).  And a Register construction that does fail mutates
    before it fails: [set(5)] on a Register of width 0 raises
    ValueError with 5 already stored in the register. *)
Lemma out_of_range_write_counterexample :
  ~ (- 2 ^ 31 <= 2 ^ 40 + 7 < 2 ^ 31) /\
  RegisterFile.setitem rv32_intreg 5 (OInt (2 ^ 40 + 7))
    = (Ok tt, RegisterFile.with_updates rv32_intreg [TraceRegister.mk 5 7]) /\
  RegisterFile.regs_updates
    (snd (RegisterFile.setitem rv32_intreg 5 (OInt (2 ^ 40 + 7))))
    <> RegisterFile.regs_updates rv32_intreg /\
  Register.init 0 = Ok (Register.mk 0 false 0) /\
  Register.set (Register.mk 0 false 0) (OInt 5)
    = (Raise ValueError, Register.mk 0 false 5) /\
  snd (Register.set (Register.mk 0 false 0) (OInt 5)) <> Register.mk 0 false 0.
Proof.
  split; [lia |]. repeat split; try reflexivity; discriminate.
Qed.

Lemma land_pow2 (r n : Z) :
  0 <= n -> Z.land r (2 ^ n) = if Z.testbit r n then 2 ^ n else 0.
Proof.
  intros Hn. apply Z.bits_inj'. intros i Hi.
  rewrite Z.land_spec, Z.pow2_bits_eqb by exact Hn.
  destruct (Z.eqb_spec n i) as [<- | Hne].
  - destruct (Z.testbit r n); simpl.
    + rewrite Z.pow2_bits_true by exact Hn. reflexivity.
    + rewrite Z.bits_0. reflexivity.
  - rewrite andb_false_r.
    destruct (Z.testbit r n).
    + rewrite Z.pow2_bits_false by exact Hne. reflexivity.
    + rewrite Z.bits_0. reflexivity.
Qed.

Lemma land_lnot_sub (r t : Z) : Z.land r (Z.lnot t) = r - Z.land r t.
Proof.
  rewrite <- Z.ldiff_land.
  pose proof (Z.add_lor_land (Z.ldiff r t) (Z.land r t)) as H.
  rewrite Z.lor_ldiff_and in H.
  replace (Z.land (Z.ldiff r t) (Z.land r t)) with 0 in H.
  - lia.
  - rewrite (Z.land_comm r t), Z.land_assoc, Z.land_ldiff, Z.land_0_l.
    reflexivity.
Qed.

Lemma tcmask_decode (b r : Z) :
  1 <= b -> 0 <= r < 2 ^ b ->
  - Z.land r (Z.shiftl 1 (b - 1)) + Z.land r (Z.lnot (Z.shiftl 1 (b - 1)))
    = decode_signed b r.
Proof.
  intros Hb Hr. destruct (pow2_split b Hb) as [E P].
  rewrite land_lnot_sub, Z.shiftl_1_l, land_pow2 by lia.
  rewrite Z.testbit_eqb by lia. unfold decode_signed.
  destruct (Z.ltb_spec r (2 ^ (b - 1))).
  - rewrite Z.div_small by lia. simpl. lia.
  - rewrite <- (Zdiv.Zdiv_unique r (2 ^ (b - 1)) 1 (r - 2 ^ (b - 1))) by lia.
    simpl. lia.
Qed.

Lemma decode_signed_range (b r : Z) :
  1 <= b -> 0 <= r < 2 ^ b ->
  - 2 ^ (b - 1) <= decode_signed b r <= 2 ^ (b - 1) - 1.
Proof.
  intros Hb Hr. destruct (pow2_split b Hb) as [E P].
  unfold decode_signed. destruct (Z.ltb_spec r (2 ^ (b - 1))); lia.
Qed.

Lemma decoded_bounds (imm : Immediate.t) (r : Z) :
  1 <= Immediate.bits imm -> 0 <= r < 2 ^ Immediate.bits imm ->
  Immediate.min imm <= decoded imm r /\
  (Immediate.lsb0 imm = false -> decoded imm r <= Immediate.max imm) /\
  (Immediate.signed imm = false -> 0 <= decoded imm r) /\
  (decoded imm r mod 2 = 0 -> decoded imm r <= Immediate.max imm).
Proof.
  intros Hb Hr. destruct (pow2_split _ Hb) as [E P].
  destruct imm as [b s l x]. simpl in *.
  unfold decoded, Immediate.min, Immediate.max. simpl.
  rewrite !Z.shiftl_1_l.
  destruct s.
  - rewrite <- (Z.shiftl_1_l (b - 1)), tcmask_decode by lia.
    pose proof (decode_signed_range b r Hb Hr).
    rewrite Z.shiftl_1_l.
    repeat split; try lia; try discriminate.
    + intros ->. lia.
    + intros Hev. destruct l; [| lia].
      pose proof (Z.mod_pos_bound (2 ^ (b - 1) - 1) 2 ltac:(lia)).
      destruct (Z.eq_dec (decode_signed b r) (2 ^ (b - 1) - 1)) as [Heq | Hne].
      * rewrite <- Heq, Hev. lia.
      * lia.
  - repeat split; try lia.
    + intros ->. lia.
    + intros Hev. destruct l; [| lia].
      pose proof (Z.mod_pos_bound (2 ^ b - 1) 2 ltac:(lia)).
      destruct (Z.eq_dec r (2 ^ b - 1)) as [Heq | Hne].
      * rewrite <- Heq, Hev. lia.
      * lia.
Qed.

(** C5, amended.  For an Immediate of width [bits >= 1] and a pattern
    [0 <= r < 2^bits], [set_from_bits(r)] hands to [set] the value
    [-(r & 2^(bits-1)) + (r & ~2^(bits-1))] when signed, which is the
    manual two's-complement decoding of [r], and [r] itself when
    unsigned.  That value is stored when [lsb0] is false, and when
    [lsb0] is true with an even stored value and an even decoded value.
    When [lsb0] is true and the decoded value is above [max()], nothing
    is stored and InvalidImmediate is raised. *)
Theorem set_from_bits_decodes (imm : Immediate.t) (r : Z) :
  1 <= Immediate.bits imm ->
  0 <= r < 2 ^ Immediate.bits imm ->
  (Immediate.signed imm = true ->
   decoded imm r = decode_signed (Immediate.bits imm) r) /\
  (Immediate.signed imm = false -> decoded imm r = r) /\
  (Immediate.lsb0 imm = false ->
   Immediate.set_from_bits imm r =
     (Ok tt, Immediate.with_value imm (decoded imm r))) /\
  (Immediate.lsb0 imm = true ->
   Immediate.value imm mod 2 = 0 ->
   decoded imm r mod 2 = 0 ->
   Immediate.set_from_bits imm r =
     (Ok tt, Immediate.with_value imm (decoded imm r))) /\
  (Immediate.lsb0 imm = true ->
   Immediate.max imm < decoded imm r ->
   Immediate.set_from_bits imm r = (Raise InvalidImmediateException, imm)).
Proof.
  intros Hb Hr.
  destruct (decoded_bounds imm r Hb Hr) as (Hmin & Hmax & Hpos & Hev).
  assert (Hd : Immediate.set_from_bits imm r = Immediate.set imm (decoded imm r)).
  { unfold Immediate.set_from_bits, decoded, Immediate.tcmask.
    rewrite Z.shiftl_1_l. reflexivity. }
  split; [| split; [| split; [| split]]].
  - intros Hs. unfold decoded. rewrite Hs.
    rewrite <- (Z.shiftl_1_l (Immediate.bits imm - 1)).
    apply tcmask_decode; assumption.
  - intros Hs. unfold decoded. rewrite Hs. reflexivity.
  - intros Hl. rewrite Hd. unfold Immediate.set. rewrite Hl. simpl.
    specialize (Hmax Hl).
    destruct (Immediate.signed imm); simpl.
    + destruct (Z.ltb_spec (decoded imm r) (Immediate.min imm)); [lia |].
      destruct (Z.gtb_spec (decoded imm r) (Immediate.max imm)); [lia |].
      reflexivity.
    + specialize (Hpos eq_refl).
      destruct (Z.ltb_spec (decoded imm r) 0); [lia |].
      destruct (Z.ltb_spec (decoded imm r) (Immediate.min imm)); [lia |].
      destruct (Z.gtb_spec (decoded imm r) (Immediate.max imm)); [lia |].
      reflexivity.
  - intros Hl Hsv Hdv. rewrite Hd. unfold Immediate.set. rewrite Hl, Hsv. simpl.
    specialize (Hev Hdv).
    destruct (Immediate.signed imm); simpl.
    + destruct (Z.ltb_spec (decoded imm r) (Immediate.min imm)); [lia |].
      destruct (Z.gtb_spec (decoded imm r) (Immediate.max imm)); [lia |].
      reflexivity.
    + specialize (Hpos eq_refl).
      destruct (Z.ltb_spec (decoded imm r) 0); [lia |].
      destruct (Z.ltb_spec (decoded imm r) (Immediate.min imm)); [lia |].
      destruct (Z.gtb_spec (decoded imm r) (Immediate.max imm)); [lia |].
      reflexivity.
  - intros Hl Hgt. rewrite Hd. unfold Immediate.set. rewrite Hl. simpl.
    destruct (Immediate.value imm mod 2 =? 1); [reflexivity |].
    destruct (negb (Immediate.signed imm) && (decoded imm r <? 0)); [reflexivity |].
    destruct (Z.gtb_spec (decoded imm r) (Immediate.max imm)); [| lia].
    rewrite orb_true_r. reflexivity.
Qed.

Lemma set_from_bits_decodes_witness :
  let imm := Immediate.mk 12 true false 0 in
  1 <= Immediate.bits imm /\
  0 <= 4095 < 2 ^ Immediate.bits imm /\
  decoded imm 4095 = -1 /\
  Immediate.set_from_bits imm 4095 = (Ok tt, Immediate.mk 12 true false (-1)).
Proof.
  cbv zeta.
  assert (Hb : 1 <= Immediate.bits (Immediate.mk 12 true false 0)) by (simpl; lia).
  assert (Hr : 0 <= 4095 < 2 ^ Immediate.bits (Immediate.mk 12 true false 0))
    by (simpl; lia).
  destruct (set_from_bits_decodes (Immediate.mk 12 true false 0) 4095 Hb Hr)
    as (Hdec & _ & Hset & _).
  split; [exact Hb |]. split; [exact Hr |].
  split; [exact (Hdec eq_refl) | exact (Hset eq_refl)].
Defined.

(** C5 as stated fails on an Immediate with [lsb0]: for the signed 4-bit
    one, the pattern 7 decodes to 7, above [max() = 6]; [set] raises and
    the stored value stays 0.  The unsigned 4-bit one rejects the pattern
    15 in the same way. *)
Lemma set_from_bits_counterexample :
  let imm := Immediate.mk 4 true true 0 in
  Immediate.init 4 true true = Ok imm /\
  0 <= 7 < 2 ^ 4 /\
  - Z.land 7 (2 ^ (4 - 1)) + Z.land 7 (Z.lnot (2 ^ (4 - 1))) = 7 /\
  Immediate.set_from_bits imm 7 = (Raise InvalidImmediateException, imm) /\
  Immediate.value (snd (Immediate.set_from_bits imm 7)) <> 7 /\
  let uimm := Immediate.mk 4 false true 0 in
  Immediate.init 4 false true = Ok uimm /\
  0 <= 15 < 2 ^ 4 /\
  Immediate.set_from_bits uimm 15 = (Raise InvalidImmediateException, uimm) /\
  Immediate.value (snd (Immediate.set_from_bits uimm 15)) <> 15.
Proof.
  cbv zeta. repeat split; try reflexivity; try discriminate.
Qed.

(** C2: the code at the failing input.  A new unsigned 4-bit Immediate
    with [lsb0] accepts the odd value 3, which lies within
    [min() .. max()]: the alignment test reads the stored value, 0.  Once
    3 is stored, every later [set] is rejected, the even value 2
    included. *)
Theorem immediate_set_accepts_odd :
  let imm := Immediate.mk 4 false true 0 in
  Immediate.init 4 false true = Ok imm /\
  Immediate.lsb0 imm = true /\
  3 mod 2 = 1 /\
  Immediate.min imm <= 3 <= Immediate.max imm /\
  Immediate.set imm 3 = (Ok tt, Immediate.mk 4 false true 3) /\
  Immediate.set (Immediate.mk 4 false true 3) 2
    = (Raise InvalidImmediateException, Immediate.mk 4 false true 3).
Proof.
  cbv zeta. repeat split; try reflexivity; cbv; discriminate.
Qed.

(** ** Object identity *)

(** C8: the code at the failing input.  Two Registers built by
    [Register(32)] have the same width and the same value, and
    [__cmp__] as written reports no difference between them, yet [==]
    on the two objects is false: it compares identities. *)
Theorem register_eq_is_identity :
  let r := Register.mk 32 false 0 in
  Heap.new_Register [] 32 = Ok (0%nat, [r]) /\
  Heap.new_Register [r] 32 = Ok (1%nat, [r; r]) /\
  Heap.deref [r; r] 0%nat = Some r /\
  Heap.deref [r; r] 1%nat = Some r /\
  Register.cmp r r = false /\
  Heap.Register_eq 0%nat 1%nat = false /\
  Heap.Register_eq 0%nat 0%nat = true.
Proof. cbv zeta. repeat split. Qed.

(** ** Executor *)

(** C1: the code at the failing input.  With every register 0 and
    [pc = 100], [jal x1, 8] then [commit] leaves [x1 == 104] and
    [pc == 8]: [execute] assigns the immediate itself to [pc], not
    [pc] plus the immediate, which would be 108. *)
Theorem jal_sets_pc_to_immediate :
  let jal := mkJ 1 (Immediate.mk 21 true true 8) in
  exists model1 model2 : State unit,
    InstructionJAL_execute jal (rv32_state 100) = (Ok tt, model1) /\
    State_commit model1 = (Ok tt, model2) /\
    RegisterFile.getitem (intreg model2) 1 = Ok (Register.mk 32 false 104) /\
    pc model2 = 8 /\
    pc model2 <> 100 + 8.
Proof.
  cbv zeta. eexists. eexists.
  split; [reflexivity |]. split; [reflexivity |].
  split; [reflexivity |]. split; [reflexivity | discriminate].
Qed.

Lemma unsigned_mod (r : Register.t) :
  0 <= Register.bits r ->
  Register.unsigned r = Register.value r mod 2 ^ Register.bits r.
Proof.
  intros Hb. unfold Register.unsigned, Register.mask.
  rewrite mask_ones, Z.land_ones by exact Hb. reflexivity.
Qed.

Lemma pc_plus_register (w pc : Z) (imm : Immediate.t) :
  1 <= w ->
  pc_plus (PcRegister w) pc imm =
    Ok (OReg (Register.mk w false (wrap w (pc + Immediate.value imm)))).
Proof.
  intros Hw. unfold pc_plus, Register.add.
  rewrite Register_fresh_ok by (simpl; lia). reflexivity.
Qed.


Lemma small_intreg_ok : RegisterFile_ok small_intreg.
Proof.
  constructor; simpl.
  - lia.
  - repeat (constructor; [split; reflexivity |]). constructor.
  - constructor.
Defined.



Lemma shiftr_in_range (b x n : Z) :
  1 <= b -> 0 <= n -> wrap b x = x ->
  wrap b (Z.shiftr x n) = x / 2 ^ n /\
  (x < 0 -> x / 2 ^ n < 0).
Proof.
  intros Hb Hn Hx.
  pose proof (wrap_range b x Hb) as Hr. rewrite Hx in Hr.
  rewrite Z.shiftr_div_pow2 by exact Hn.
  assert (Hd : 0 < 2 ^ n) by (apply Z.pow_pos_nonneg; lia).
  pose proof (Z.div_mod x (2 ^ n) ltac:(lia)) as Hq.
  pose proof (Z.mod_pos_bound x (2 ^ n) Hd) as Hm.
  split.
  - apply wrap_small; [exact Hb |]. nia.
  - intros Hneg. nia.
Qed.

(** C10. In every state, and for the same operand fields, [srl] and
    [sra] have the same outcome and leave the same state, pending writes
    included.  When the register file satisfies its invariant, [rs1] and
    [rs2] designate registers [a] and [b], [rd] designates a mutable
    register and [b] holds a non-negative value, the write both append is
    (rd, a's signed value divided by [2^b] rounding down): the sign of
    [a] propagates, a negative [a] gives a negative result. *)
Theorem srl_same_as_sra {Mem : Type} (self : InstructionRType) (model : State Mem) :
  InstructionSRL_execute self model = InstructionSRA_execute self model /\
  (forall a b d,
      RegisterFile_ok (intreg model) ->
      RegisterFile.getitem (intreg model) (r_rs1 self) = Ok a ->
      RegisterFile.getitem (intreg model) (r_rs2 self) = Ok b ->
      RegisterFile.getitem (intreg model) (r_rd self) = Ok d ->
      Register.immutable d = false ->
      0 <= Register.value b ->
      let u := TraceRegister.mk (r_rd self)
                 (Register.value a / 2 ^ Register.value b) in
      InstructionSRL_execute self model =
        (Ok tt,
         mkState
           (RegisterFile.with_updates (intreg model)
              (RegisterFile.regs_updates (intreg model) ++ [u]))
           (pc model) (memory model)) /\
      (Register.value a < 0 -> TraceRegister.value u < 0)).
Proof.
  split; [reflexivity |].
  intros a b d Hok Ha Hb Hd Hi Hnn u.
  assert (Hsa : Register.bits a = RegisterFile.bits (intreg model) /\
                wrap (Register.bits a) (Register.value a) = Register.value a).
  { destruct Hok as [_ Hrs _]. rewrite Forall_forall in Hrs.
    apply getitem_inv in Ha as (p & _ & Hp).
    apply Hrs. eapply nth_error_In; eauto. }
  destruct Hsa as [Hba Hwa].
  pose proof (ok_bits _ Hok) as Hbits.
  destruct (shiftr_in_range (Register.bits a) (Register.value a) (Register.value b))
    as [Hw Hneg]; [lia | exact Hnn | exact Hwa |].
  split; [| exact Hneg].
  unfold InstructionSRL_execute. rewrite Ha, Hb.
  unfold Register.rshift. rewrite Register_init_ok by lia. simpl.
  unfold Py.rshift. destruct (Z.ltb_spec (Register.value b) 0); [lia |]. simpl.
  rewrite Register_fresh_ok by lia.
  unfold intreg_setitem.
  rewrite (setitem_mutable _ _ _ d Hbits Hd Hi). simpl.
  rewrite Hw, <- Hba.
  rewrite wrap_small; [reflexivity | lia |].
  rewrite <- Hw. apply wrap_range. lia.
Qed.

Lemma srl_same_as_sra_witness :
  let model := mkState small_intreg 0 tt in
  let self := mkR 3 1 2 in
  RegisterFile_ok (intreg model) /\
  InstructionSRA_execute self model =
    (Ok tt,
     mkState (RegisterFile.with_updates small_intreg [TraceRegister.mk 3 (-4)]) 0 tt).
Proof.
  cbv zeta. split; [exact small_intreg_ok |].
  destruct (srl_same_as_sra (mkR 3 1 2) (mkState small_intreg 0 tt)) as [Heq Hval].
  rewrite <- Heq.
  destruct (Hval (Register.mk 32 false (-8)) (Register.mk 32 false 1)
              (Register.mk 32 false 0) small_intreg_ok
              eq_refl eq_refl eq_refl eq_refl ltac:(simpl; lia))
    as [Hexec _].
  exact Hexec.
Defined.

(** * Further properties of types.py *)

(** ** Immediate: construction, bounds, acceptance *)

Lemma mod2_cases (v : Z) : v mod 2 = 0 \/ v mod 2 = 1.
Proof. pose proof (Z.mod_pos_bound v 2 ltac:(lia)). lia. Qed.

Lemma round_even (t : Z) :
  (t - t mod 2) mod 2 = 0 /\ t - 1 <= t - t mod 2 <= t.
Proof.
  pose proof (Z.div_mod t 2 ltac:(lia)) as Hd.
  destruct (mod2_cases t) as [H | H]; rewrite H; split; try lia.
  - replace (t - 0) with (t / 2 * 2) by lia. apply Z.mod_mul. lia.
  - replace (t - 1) with (t / 2 * 2) by lia. apply Z.mod_mul. lia.
Qed.

Lemma Immediate_init_ok (bits : Z) (s l : bool) :
  1 <= bits -> Immediate.init bits s l = Ok (Immediate.mk bits s l 0).
Proof.
  intros Hb. unfold Immediate.init, Py.lshift.
  destruct (Z.ltb_spec (bits - 1) 0); [lia |].
  destruct (Z.ltb_spec bits 0); [lia |]. reflexivity.
Qed.

Lemma max_top (bits : Z) (s l : bool) (x : Z) :
  Immediate.max (Immediate.mk bits s l x) =
    if l then top bits s - top bits s mod 2 else top bits s.
Proof.
  unfold Immediate.max, top. simpl. rewrite !Z.shiftl_1_l.
  destruct s; reflexivity.
Qed.

Lemma min_value (bits : Z) (s l : bool) (x : Z) :
  Immediate.min (Immediate.mk bits s l x) = if s then - 2 ^ (bits - 1) else 0.
Proof. unfold Immediate.min. simpl. rewrite Z.shiftl_1_l. reflexivity. Qed.

Lemma top_nonneg (bits : Z) (s : bool) : 1 <= bits -> 0 <= top bits s.
Proof.
  intros Hb. destruct (pow2_split _ Hb) as [E P]. unfold top.
  destruct s; lia.
Qed.

(** X1. [Immediate(bits=..)] is a ValueError below one bit and otherwise
    an Immediate holding 0.  From one bit on, whatever is stored,
    [min()] is [-2^(bits-1)] or 0, [max()] is the top value
    ([2^(bits-1)-1] signed, [2^bits-1] unsigned) or, with [lsb0], the
    largest even number not above it, and [min() <= 0 <= max()]: the
    initial 0 is always within the range. *)
Theorem immediate_bounds (bits : Z) (s l : bool) (x : Z) :
  (bits < 1 -> Immediate.init bits s l = Raise ValueError) /\
  (1 <= bits ->
   Immediate.init bits s l = Ok (Immediate.mk bits s l 0) /\
   Immediate.min (Immediate.mk bits s l x) = (if s then - 2 ^ (bits - 1) else 0) /\
   (l = false -> Immediate.max (Immediate.mk bits s l x) = top bits s) /\
   (l = true ->
    Immediate.max (Immediate.mk bits s l x) mod 2 = 0 /\
    top bits s - 1 <= Immediate.max (Immediate.mk bits s l x) <= top bits s) /\
   Immediate.min (Immediate.mk bits s l x) <= 0
     <= Immediate.max (Immediate.mk bits s l x)).
Proof.
  split.
  - intros Hb. unfold Immediate.init, Py.lshift.
    destruct (Z.ltb_spec (bits - 1) 0); [reflexivity | lia].
  - intros Hb.
    destruct (pow2_split _ Hb) as [E P].
    pose proof (top_nonneg bits s Hb) as Ht.
    pose proof (round_even (top bits s)) as [Hev Hrd].
    rewrite max_top, min_value.
    split; [apply Immediate_init_ok, Hb |].
    split; [reflexivity |].
    split; [intros ->; reflexivity |].
    split; [intros ->; split; assumption |].
    split; [destruct s; lia |].
    destruct l; [| exact Ht].
    pose proof (Z.div_mod (top bits s) 2 ltac:(lia)) as Hd.
    pose proof (Z.div_pos (top bits s) 2 Ht ltac:(lia)) as Hq.
    lia.
Qed.

Lemma immediate_bounds_witness :
  Immediate.init 0 true false = Raise ValueError /\
  Immediate.init 13 true true = Ok (Immediate.mk 13 true true 0) /\
  Immediate.min (Immediate.mk 13 true true 6) = -4096 /\
  Immediate.max (Immediate.mk 13 true true 6) mod 2 = 0.
Proof.
  destruct (immediate_bounds 0 true false 0) as [Hlow _].
  destruct (immediate_bounds 13 true true 6) as [_ Hok].
  destruct (Hok ltac:(lia)) as (Hi & Hmin & _ & Hmax & _).
  split; [apply Hlow; lia |]. split; [exact Hi |]. split; [exact Hmin |].
  apply Hmax. reflexivity.
Defined.

Lemma set_in_range (imm : Immediate.t) (v : Z) :
  Immediate.min imm <= v <= Immediate.max imm ->
  ((negb (Immediate.signed imm) && (v <? 0)) ||
   ((v <? Immediate.min imm) || (v >? Immediate.max imm))) = false.
Proof.
  intros Hr.
  destruct (Z.ltb_spec v (Immediate.min imm)); [lia |].
  destruct (Z.gtb_spec v (Immediate.max imm)); [lia |].
  rewrite orb_false_r.
  destruct (Immediate.signed imm) eqn:Hs; simpl; [reflexivity |].
  unfold Immediate.min in Hr. rewrite Hs in Hr.
  destruct (Z.ltb_spec v 0); [lia | reflexivity].
Qed.

Lemma set_unfold (imm : Immediate.t) (v : Z) :
  Immediate.set imm v =
    if (Immediate.lsb0 imm && (Immediate.value imm mod 2 =? 1)) ||
       ((negb (Immediate.signed imm) && (v <? 0)) ||
        ((v <? Immediate.min imm) || (v >? Immediate.max imm)))
    then (Raise InvalidImmediateException, imm)
    else (Ok tt, Immediate.with_value imm v).
Proof.
  unfold Immediate.set.
  destruct (Immediate.lsb0 imm && (Immediate.value imm mod 2 =? 1)); [reflexivity |].
  destruct (negb (Immediate.signed imm) && (v <? 0)); [reflexivity |].
  destruct ((v <? Immediate.min imm) || (v >? Immediate.max imm)); reflexivity.
Qed.

(** X2. [Immediate.set(v)] returns normally exactly when [v] lies within
    [min() .. max()] and, for an [lsb0] Immediate, the value stored
    before the call is even; it then stores [v] and changes nothing
    else.  In every other case it raises InvalidImmediate and the
    Immediate is unchanged.  The test for a negative value of an
    unsigned Immediate never decides: such a value is below [min()]. *)
Theorem immediate_set_accepts_iff (imm : Immediate.t) (v : Z) :
  ((Immediate.lsb0 imm = true -> Immediate.value imm mod 2 = 0) /\
   Immediate.min imm <= v <= Immediate.max imm ->
   Immediate.set imm v = (Ok tt, Immediate.with_value imm v)) /\
  (~ ((Immediate.lsb0 imm = true -> Immediate.value imm mod 2 = 0) /\
      Immediate.min imm <= v <= Immediate.max imm) ->
   Immediate.set imm v = (Raise InvalidImmediateException, imm)).
Proof.
  rewrite set_unfold. split.
  - intros [He Hr]. rewrite (set_in_range imm v Hr), orb_false_r.
    destruct (Immediate.lsb0 imm); [| reflexivity].
    rewrite (He eq_refl). reflexivity.
  - intros Hna.
    destruct (Immediate.lsb0 imm && (Immediate.value imm mod 2 =? 1)) eqn:Hl;
      [reflexivity |].
    simpl.
    destruct (negb (Immediate.signed imm) && (v <? 0)); [reflexivity |].
    simpl.
    destruct (Z.ltb_spec v (Immediate.min imm)); [reflexivity |].
    destruct (Z.gtb_spec v (Immediate.max imm)); [reflexivity |].
    exfalso. apply Hna. split; [| lia].
    intros Hl0. rewrite Hl0 in Hl. simpl in Hl.
    destruct (mod2_cases (Immediate.value imm)) as [Hev | Hodd]; [exact Hev |].
    rewrite Hodd in Hl. discriminate.
Qed.

Lemma immediate_set_accepts_iff_witness :
  Immediate.set (Immediate.mk 12 true false 0) (-2048)
    = (Ok tt, Immediate.mk 12 true false (-2048)) /\
  Immediate.set (Immediate.mk 12 true false 5) 2048
    = (Raise InvalidImmediateException, Immediate.mk 12 true false 5).
Proof.
  split.
  - apply (proj1 (immediate_set_accepts_iff (Immediate.mk 12 true false 0) (-2048))).
    split; [discriminate | cbv; split; discriminate].
  - apply (proj2 (immediate_set_accepts_iff (Immediate.mk 12 true false 5) 2048)).
    intros [_ [_ H]]. cbv in H. apply H. reflexivity.
Defined.

(** ** Immediate: raw bits and back *)

Lemma Immediate_unsigned_mod (imm : Immediate.t) :
  0 <= Immediate.bits imm ->
  Immediate.unsigned imm = Immediate.value imm mod 2 ^ Immediate.bits imm.
Proof.
  intros Hb. unfold Immediate.unsigned, Immediate.mask.
  rewrite mask_ones, Z.land_ones by exact Hb. reflexivity.
Qed.

Lemma set_from_bits_decoded (imm : Immediate.t) (r : Z) :
  Immediate.set_from_bits imm r = Immediate.set imm (decoded imm r).
Proof.
  unfold Immediate.set_from_bits, decoded, Immediate.tcmask.
  rewrite Z.shiftl_1_l. reflexivity.
Qed.

Lemma decoded_signed (imm : Immediate.t) (r : Z) :
  1 <= Immediate.bits imm -> 0 <= r < 2 ^ Immediate.bits imm ->
  decoded imm r =
    if Immediate.signed imm then decode_signed (Immediate.bits imm) r else r.
Proof.
  intros Hb Hr. unfold decoded.
  destruct (Immediate.signed imm); [| reflexivity].
  rewrite <- (Z.shiftl_1_l (Immediate.bits imm - 1)).
  apply tcmask_decode; assumption.
Qed.

Lemma decode_signed_mod (b v : Z) :
  1 <= b -> - 2 ^ (b - 1) <= v < 2 ^ (b - 1) ->
  decode_signed b (v mod 2 ^ b) = v.
Proof.
  intros Hb Hv. destruct (pow2_split b Hb) as [E P]. unfold decode_signed.
  destruct (Z_lt_ge_dec v 0) as [Hn | Hp].
  - replace (v mod 2 ^ b) with (v + 2 ^ b).
    + destruct (Z.ltb_spec (v + 2 ^ b) (2 ^ (b - 1))); lia.
    + apply Z.mod_unique with (q := -1); lia.
  - rewrite Z.mod_small by lia.
    destruct (Z.ltb_spec v (2 ^ (b - 1))); lia.
Qed.

Lemma mod_decode_signed (b r : Z) :
  1 <= b -> 0 <= r < 2 ^ b -> decode_signed b r mod 2 ^ b = r.
Proof.
  intros Hb Hr. destruct (pow2_split b Hb) as [E P]. unfold decode_signed.
  destruct (Z.ltb_spec r (2 ^ (b - 1))).
  - apply Z.mod_small. lia.
  - symmetry. apply Z.mod_unique with (q := -1); lia.
Qed.

(** X3. Raw bits and stored value determine each other.  For an
    Immediate of at least one bit whose stored value lies within
    [min() .. max()] (and is even when [lsb0]), [unsigned()] lies in
    [0 .. 2^bits - 1] and [set_from_bits(unsigned())] returns normally
    and leaves the Immediate exactly as it is.  Conversely, without
    [lsb0], after [set_from_bits(r)] with [0 <= r < 2^bits],
    [unsigned()] is [r]. *)
Theorem immediate_bits_round_trip (imm : Immediate.t) (r : Z) :
  1 <= Immediate.bits imm ->
  (Immediate.min imm <= Immediate.value imm <= Immediate.max imm ->
   (Immediate.lsb0 imm = true -> Immediate.value imm mod 2 = 0) ->
   0 <= Immediate.unsigned imm < 2 ^ Immediate.bits imm /\
   Immediate.set_from_bits imm (Immediate.unsigned imm) = (Ok tt, imm)) /\
  (Immediate.lsb0 imm = false ->
   0 <= r < 2 ^ Immediate.bits imm ->
   exists imm',
     Immediate.set_from_bits imm r = (Ok tt, imm') /\
     Immediate.unsigned imm' = r).
Proof.
  intros Hb. destruct (pow2_split _ Hb) as [E P]. split.
  - intros Hr Hev.
    rewrite Immediate_unsigned_mod by lia.
    pose proof (Z.mod_pos_bound (Immediate.value imm) (2 ^ Immediate.bits imm)
                  ltac:(lia)) as Hm.
    split; [exact Hm |].
    rewrite set_from_bits_decoded, decoded_signed by assumption.
    assert (Hd : (if Immediate.signed imm
                  then decode_signed (Immediate.bits imm)
                         (Immediate.value imm mod 2 ^ Immediate.bits imm)
                  else Immediate.value imm mod 2 ^ Immediate.bits imm)
                 = Immediate.value imm).
    { destruct imm as [b s l x]. simpl in *.
      rewrite max_top, min_value in Hr.
      pose proof (round_even (top b s)) as [_ Hrd].
      assert (Hx : x <= top b s) by (destruct l; lia).
      unfold top in Hx. destruct s.
      - apply decode_signed_mod; lia.
      - apply Z.mod_small. lia. }
    rewrite Hd.
    rewrite set_unfold.
    rewrite (set_in_range imm _ Hr), orb_false_r.
    destruct imm as [b s l x]. simpl in *.
    destruct l; simpl; [rewrite (Hev eq_refl) |]; reflexivity.
  - intros Hl Hr.
    rewrite set_from_bits_decoded.
    destruct (decoded_bounds imm r Hb Hr) as (Hmin & Hmax & _ & _).
    specialize (Hmax Hl).
    rewrite set_unfold, (set_in_range imm _ (conj Hmin Hmax)), Hl. simpl.
    eexists. split; [reflexivity |].
    rewrite Immediate_unsigned_mod by (simpl; lia). simpl.
    rewrite decoded_signed by assumption.
    destruct (Immediate.signed imm).
    + apply mod_decode_signed; assumption.
    + apply Z.mod_small. exact Hr.
Qed.

Lemma immediate_bits_round_trip_witness :
  let imm := Immediate.mk 12 true false (-3) in
  1 <= Immediate.bits imm /\
  Immediate.unsigned imm = 4093 /\
  Immediate.set_from_bits imm 4093 = (Ok tt, imm) /\
  exists imm',
    Immediate.set_from_bits imm 2048 = (Ok tt, imm') /\
    Immediate.unsigned imm' = 2048.
Proof.
  cbv zeta.
  destruct (immediate_bits_round_trip (Immediate.mk 12 true false (-3)) 2048
              ltac:(simpl; lia)) as [Hback Hforth].
  split; [simpl; lia |]. split; [reflexivity |].
  split.
  - apply Hback; [cbv; split; discriminate | discriminate].
  - apply Hforth; [reflexivity | simpl; lia].
Defined.

(** ** Immediate: shifting and randomizing *)

Lemma Immediate_lshift_ok (imm : Immediate.t) (shamt : Z) :
  1 <= Immediate.bits imm ->
  Immediate.min imm <= Immediate.value imm <= Immediate.max imm ->
  0 <= shamt ->
  let new := Immediate.mk (Immediate.bits imm + shamt) (Immediate.signed imm)
               (Immediate.lsb0 imm) (Immediate.value imm * 2 ^ shamt) in
  Immediate.lshift imm shamt = Ok new /\
  Immediate.min new <= Immediate.value new <= Immediate.max new.
Proof.
  intros Hb Hr Hs new.
  assert (Hrange : Immediate.min new <= Immediate.value new <= Immediate.max new).
  { subst new. destruct imm as [b s l x]. simpl in *.
    rewrite max_top, min_value in *.
    destruct (pow2_split b Hb) as [E P].
    destruct (pow2_split (b + shamt) ltac:(lia)) as [E' P'].
    assert (HS : 0 < 2 ^ shamt) by (apply Z.pow_pos_nonneg; lia).
    assert (HT : 2 ^ (b + shamt - 1) = 2 ^ (b - 1) * 2 ^ shamt).
    { rewrite <- Z.pow_add_r by lia. f_equal. lia. }
    pose proof (round_even (top b s)) as [_ Hrd].
    pose proof (round_even (top (b + shamt) s)) as [_ Hrd'].
    assert (Hx : x <= top b s) by (destruct l; lia).
    destruct (Z.eq_dec shamt 0) as [-> | Hne].
    - replace (b + 0) with b in * by lia. change (2 ^ 0) with 1.
      rewrite Z.mul_1_r. destruct s; lia.
    - assert (HS2 : 2 <= 2 ^ shamt).
      { change 2 with (2 ^ 1) at 1. apply Z.pow_le_mono_r; lia. }
      unfold top in *. destruct s.
      + split; [nia |].
        assert (x * 2 ^ shamt <= 2 ^ (b + shamt - 1) - 2) by nia.
        destruct l; lia.
      + split; [nia |].
        assert (x * 2 ^ shamt <= 2 ^ (b + shamt) - 2) by nia.
        destruct l; lia. }
  split; [| exact Hrange].
  unfold Immediate.lshift.
  rewrite Immediate_init_ok by lia. simpl.
  unfold Py.lshift. destruct (Z.ltb_spec shamt 0); [lia |]. simpl.
  rewrite Z.shiftl_mul_pow2 by lia.
  rewrite set_unfold. simpl.
  rewrite andb_false_r. simpl.
  pose proof (set_in_range
                (Immediate.mk (Immediate.bits imm + shamt) (Immediate.signed imm)
                   (Immediate.lsb0 imm) 0)
                (Immediate.value imm * 2 ^ shamt)) as Hin.
  simpl in Hin. rewrite Hin; [reflexivity |].
  subst new. rewrite max_top, min_value in *. exact Hrange.
Qed.

(** X4. [imm << shamt] on an Immediate of at least one bit whose value
    lies within [min() .. max()]: with [shamt >= 0] the result is a new
    Immediate of [bits + shamt] bits, same signedness and alignment,
    holding [value * 2^shamt], which lies within its own range; the
    operation cannot raise InvalidImmediate.  With [shamt < 0] it is a
    ValueError. *)
Theorem immediate_lshift_scales (imm : Immediate.t) (shamt : Z) :
  1 <= Immediate.bits imm ->
  Immediate.min imm <= Immediate.value imm <= Immediate.max imm ->
  (0 <= shamt ->
   let new := Immediate.mk (Immediate.bits imm + shamt) (Immediate.signed imm)
                (Immediate.lsb0 imm) (Immediate.value imm * 2 ^ shamt) in
   Immediate.lshift imm shamt = Ok new /\
   Immediate.min new <= Immediate.value new <= Immediate.max new) /\
  (shamt < 0 -> Immediate.lshift imm shamt = Raise ValueError).
Proof.
  intros Hb Hr. split.
  - intros Hs. apply Immediate_lshift_ok; assumption.
  - intros Hs. unfold Immediate.lshift, Immediate.init, Py.lshift.
    destruct (Z.ltb_spec (Immediate.bits imm + shamt - 1) 0); [reflexivity |].
    destruct (Z.ltb_spec (Immediate.bits imm + shamt) 0); [reflexivity |].
    simpl. destruct (Z.ltb_spec shamt 0); [reflexivity | lia].
Qed.

Lemma immediate_lshift_scales_witness :
  let imm := Immediate.mk 20 false false 1048575 in
  1 <= Immediate.bits imm /\
  Immediate.min imm <= Immediate.value imm <= Immediate.max imm /\
  Immediate.lshift imm 12 = Ok (Immediate.mk 32 false false 4294963200) /\
  Immediate.lshift imm (-1) = Raise ValueError.
Proof.
  cbv zeta.
  assert (Hb : 1 <= Immediate.bits (Immediate.mk 20 false false 1048575))
    by (simpl; lia).
  assert (Hr : Immediate.min (Immediate.mk 20 false false 1048575)
               <= Immediate.value (Immediate.mk 20 false false 1048575)
               <= Immediate.max (Immediate.mk 20 false false 1048575))
    by (cbv; split; discriminate).
  destruct (immediate_lshift_scales _ 12 Hb Hr) as [Hup _].
  destruct (immediate_lshift_scales _ (-1) Hb Hr) as [_ Hdown].
  split; [exact Hb |]. split; [exact Hr |].
  split; [apply Hup; lia | apply Hdown; lia].
Defined.

Lemma round_even_ge (m d : Z) : m mod 2 = 0 -> m <= d -> m <= d - d mod 2.
Proof.
  intros Hm Hle.
  pose proof (Z.div_mod m 2 ltac:(lia)) as Em.
  pose proof (Z.div_mod d 2 ltac:(lia)) as Ed.
  pose proof (Z.div_le_mono m d 2 ltac:(lia) Hle). lia.
Qed.

(** X5. [randomize()] on an Immediate of at least one bit, whatever
    integer of [min() .. max()] [randint] returns: it returns normally
    and, unless the Immediate is signed, [lsb0] and one bit wide, the
    value it stores lies within [min() .. max()] and is even when
    [lsb0]. *)
Theorem immediate_randomize_legal (imm : Immediate.t) (draw : Z) :
  1 <= Immediate.bits imm ->
  Immediate.min imm <= draw <= Immediate.max imm ->
  (Immediate.signed imm = true -> Immediate.lsb0 imm = true ->
   2 <= Immediate.bits imm) ->
  exists v,
    Immediate.randomize imm draw = (Ok tt, Immediate.with_value imm v) /\
    Immediate.min imm <= v <= Immediate.max imm /\
    (Immediate.lsb0 imm = true -> v mod 2 = 0) /\
    (Immediate.lsb0 imm = false -> v = draw).
Proof.
  intros Hb Hd Hw.
  destruct imm as [b s l x]. simpl in *.
  unfold Immediate.randomize.
  destruct (Z.ltb_spec (Immediate.max (Immediate.mk b s l x))
              (Immediate.min (Immediate.mk b s l x))); [lia |].
  simpl. destruct l.
  - exists (draw - draw mod 2).
    split; [reflexivity |].
    pose proof (round_even draw) as [Hev Hrd].
    split; [| split; [intros _; exact Hev | discriminate]].
    rewrite max_top, min_value in *.
    split; [| lia].
    apply round_even_ge; [| lia].
    destruct s; [| reflexivity].
    specialize (Hw eq_refl eq_refl).
    destruct (pow2_split (b - 1) ltac:(lia)) as [E P]. rewrite E.
    replace (- (2 * 2 ^ (b - 1 - 1))) with ((- 2 ^ (b - 1 - 1)) * 2) by lia.
    apply Z.mod_mul. lia.
  - exists draw. split; [reflexivity |]. split; [exact Hd |].
    split; [discriminate | reflexivity].
Qed.

Lemma immediate_randomize_legal_witness :
  let imm := Immediate.mk 13 true true 0 in
  1 <= Immediate.bits imm /\
  Immediate.min imm <= -4095 <= Immediate.max imm /\
  exists v,
    Immediate.randomize imm (-4095) = (Ok tt, Immediate.with_value imm v) /\
    Immediate.min imm <= v <= Immediate.max imm /\
    (Immediate.lsb0 imm = true -> v mod 2 = 0) /\
    (Immediate.lsb0 imm = false -> v = -4095).
Proof.
  cbv zeta.
  assert (Hb : 1 <= Immediate.bits (Immediate.mk 13 true true 0)) by (simpl; lia).
  assert (Hd : Immediate.min (Immediate.mk 13 true true 0) <= -4095
               <= Immediate.max (Immediate.mk 13 true true 0))
    by (cbv; split; discriminate).
  split; [exact Hb |]. split; [exact Hd |].
  apply (immediate_randomize_legal _ (-4095) Hb Hd). intros _ _. simpl. lia.
Defined.

(** * Further properties of Register *)

Lemma in_range_wrap (b v : Z) :
  1 <= b -> (wrap b v = v <-> - 2 ^ (b - 1) <= v < 2 ^ (b - 1)).
Proof.
  intros Hb. split.
  - intros <-. apply wrap_range, Hb.
  - apply wrap_small, Hb.
Qed.

(** X6. [Register.set] on a register of at least one bit never raises.
    On a mutable register it stores a value within the two's-complement
    range of the width whose [unsigned()] is the operand modulo
    [2^bits] (the operand itself when it already lies in the range), and
    setting the same operand again changes nothing.  On an immutable
    register holding a value in range it changes nothing.  On a mutable
    register of width 0 or less it raises ValueError after having
    stored the operand, unwrapped. *)
Theorem register_set_sign_extends (r : Register.t) (v : operand) :
  (1 <= Register.bits r -> Register.immutable r = false ->
   exists r',
     Register.set r v = (Ok tt, r') /\
     Register.bits r' = Register.bits r /\
     Register.immutable r' = false /\
     - 2 ^ (Register.bits r - 1) <= Register.value r' < 2 ^ (Register.bits r - 1) /\
     Register.unsigned r' = py_int v mod 2 ^ Register.bits r /\
     (- 2 ^ (Register.bits r - 1) <= py_int v < 2 ^ (Register.bits r - 1) ->
      Register.value r' = py_int v) /\
     Register.set r' v = (Ok tt, r')) /\
  (1 <= Register.bits r -> Register.immutable r = true ->
   - 2 ^ (Register.bits r - 1) <= Register.value r < 2 ^ (Register.bits r - 1) ->
   Register.set r v = (Ok tt, r)) /\
  (Register.bits r <= 0 -> Register.immutable r = false ->
   Register.set r v = (Raise ValueError, Register.with_value r (py_int v))).
Proof.
  destruct r as [b i x]. simpl. split; [| split].
  - intros Hb ->.
    exists (Register.mk b false (wrap b (py_int v))).
    rewrite !Register_set_ok by (simpl; lia). simpl.
    split; [reflexivity |]. split; [reflexivity |]. split; [reflexivity |].
    split; [apply wrap_range, Hb |].
    split; [apply unsigned_wrap, Hb |].
    split; [apply wrap_small, Hb |].
    reflexivity.
  - intros Hb -> Hx.
    rewrite Register_set_ok by (simpl; lia). simpl.
    unfold Register.with_value. simpl.
    rewrite wrap_small by assumption. reflexivity.
  - intros Hb ->. unfold Register.set, Py.rshift. simpl.
    destruct (Z.ltb_spec (b - 1) 0); [reflexivity | lia].
Qed.

Lemma register_set_sign_extends_witness :
  let r := Register.mk 32 false 7 in
  1 <= Register.bits r /\
  Register.immutable r = false /\
  exists r',
    Register.set r (OInt 4294967295) = (Ok tt, r') /\
    Register.value r' = -1 /\
    Register.unsigned r' = 4294967295.
Proof.
  cbv zeta. split; [simpl; lia |]. split; [reflexivity |].
  destruct (register_set_sign_extends (Register.mk 32 false 7) (OInt 4294967295))
    as [Hmut _].
  destruct (Hmut ltac:(simpl; lia) eq_refl)
    as (r' & Hset & _ & _ & _ & Hu & _).
  exists r'. split; [exact Hset |]. split; [| exact Hu].
  injection Hset as <-. reflexivity.
Defined.

Lemma mod_in_range (b x : Z) :
  1 <= b -> - 2 ^ (b - 1) <= x < 2 ^ (b - 1) ->
  x mod 2 ^ b = if x <? 0 then x + 2 ^ b else x.
Proof.
  intros Hb Hx. destruct (pow2_split b Hb) as [E P].
  destruct (Z.ltb_spec x 0).
  - symmetry. apply Z.mod_unique with (q := -1); lia.
  - apply Z.mod_small. lia.
Qed.

(** X7. [unsigned()] of a register of at least one bit lies in
    [0 .. 2^bits - 1].  When the stored value is within the
    two's-complement range, [unsigned()] is the value itself if it is
    not negative and the value plus [2^bits] otherwise, and setting a
    mutable register to its own [unsigned()] restores it exactly. *)
Theorem register_unsigned_round_trip (r : Register.t) :
  1 <= Register.bits r ->
  0 <= Register.unsigned r < 2 ^ Register.bits r /\
  (- 2 ^ (Register.bits r - 1) <= Register.value r < 2 ^ (Register.bits r - 1) ->
   Register.unsigned r =
     (if Register.value r <? 0 then Register.value r + 2 ^ Register.bits r
      else Register.value r) /\
   (Register.immutable r = false ->
    Register.set r (OInt (Register.unsigned r)) = (Ok tt, r))).
Proof.
  intros Hb. destruct (pow2_split _ Hb) as [E P].
  rewrite unsigned_mod by lia. split.
  - apply Z.mod_pos_bound. lia.
  - intros Hx. split; [apply mod_in_range; assumption |].
    intros Hi. rewrite Register_set_ok by exact Hb. rewrite Hi. simpl.
    destruct r as [b i x]. simpl in *. subst i.
    unfold Register.with_value. simpl. f_equal. f_equal.
    rewrite <- (wrap_small b x Hb Hx) at 2.
    unfold wrap. rewrite Zplus_mod_idemp_l. reflexivity.
Qed.

Lemma register_unsigned_round_trip_witness :
  let r := Register.mk 32 false (-2) in
  1 <= Register.bits r /\
  Register.unsigned r = 4294967294 /\
  Register.set r (OInt 4294967294) = (Ok tt, r).
Proof.
  cbv zeta.
  destruct (register_unsigned_round_trip (Register.mk 32 false (-2))
              ltac:(simpl; lia)) as [_ Hin].
  destruct (Hin ltac:(simpl; lia)) as [Hu Hset].
  split; [simpl; lia |]. split; [exact Hu | exact (Hset eq_refl)].
Defined.

Lemma wrap_add_l (b x y : Z) : 1 <= b -> wrap b (wrap b x + y) = wrap b (x + y).
Proof.
  intros Hb. destruct (pow2_split b Hb) as [E P]. unfold wrap at 1 3.
  f_equal. 
  rewrite <- (Zplus_mod_idemp_l (wrap b x + y)), <- (Zplus_mod_idemp_l (x + y)).
  f_equal. f_equal.
  rewrite <- (Zplus_mod_idemp_l (wrap b x)), <- (Zplus_mod_idemp_l x).
  rewrite wrap_congruent by exact Hb. reflexivity.
Qed.

(** X8. Register addition and subtraction are arithmetic modulo
    [2^bits] read as signed.  For a register of at least one bit:
    adding then subtracting the same operand, or subtracting then
    adding it, gives back the original value wrapped (the original
    value itself when it is in range); two additions in a row give the
    wrapped unbounded sum of the three numbers; and [a + b] and [b + a]
    hold the same value for registers of equal width. *)
Theorem register_add_sub_modular (bits : Z) (i j : bool) (x y : Z) (o p : operand) :
  1 <= bits ->
  let a := Register.mk bits i x in
  let b := Register.mk bits j y in
  (exists s, Register.add a o = Ok s /\
             Register.sub s o = rewrapped a x) /\
  (exists s, Register.sub a o = Ok s /\
             Register.add s o = rewrapped a x) /\
  (exists s, Register.add a o = Ok s /\
             Register.add s p = rewrapped a (x + py_int o + py_int p)) /\
  Register.add a (OReg b) = Register.add b (OReg a) /\
  (- 2 ^ (bits - 1) <= x < 2 ^ (bits - 1) ->
   rewrapped a x = Ok (Register.mk bits false x)).
Proof.
  intros Hb a b.
  unfold Register.add, Register.sub, rewrapped.
  rewrite !Register_fresh_ok by exact Hb. simpl.
  split; [| split; [| split; [| split]]].
  - eexists. split; [reflexivity |].
    rewrite Register_fresh_ok by exact Hb. simpl.
    replace (wrap bits (x + py_int o) - py_int o)
      with (wrap bits (x + py_int o) + - py_int o) by lia.
    rewrite wrap_add_l by exact Hb. do 3 f_equal. lia.
  - eexists. split; [reflexivity |].
    rewrite Register_fresh_ok by exact Hb. simpl.
    rewrite <- Z.add_opp_r, wrap_add_l by exact Hb. do 3 f_equal. lia.
  - eexists. split; [reflexivity |].
    rewrite Register_fresh_ok by exact Hb. simpl.
    rewrite wrap_add_l by exact Hb. reflexivity.
  - do 3 f_equal. lia.
  - intros Hx. rewrite wrap_small by assumption. reflexivity.
Qed.

Lemma register_add_sub_modular_witness :
  1 <= 32 /\
  exists s,
    Register.add (Register.mk 32 false 2147483647) (OInt 5) = Ok s /\
    Register.value s = -2147483644 /\
    Register.sub s (OInt 5) = Ok (Register.mk 32 false 2147483647).
Proof.
  split; [lia |].
  destruct (register_add_sub_modular 32 false false 2147483647 0 (OInt 5) (OInt 0)
              ltac:(lia)) as [(s & Hadd & Hsub) _].
  exists s. split; [exact Hadd |]. split; [| exact Hsub].
  injection Hadd as <-. reflexivity.
Defined.

Lemma sign_bit (v n : Z) :
  0 <= n -> negb (Z.land (Z.shiftr v n) 1 =? 0) = Z.testbit v n.
Proof.
  intros Hn.
  change (Z.land (Z.shiftr v n) 1) with (Z.land (Z.shiftr v n) (Z.ones 1)).
  rewrite Z.land_ones by lia. change (2 ^ 1) with 2.
  rewrite <- Z.bit0_mod, Z.shiftr_spec by lia. simpl.
  destruct (Z.testbit v n); reflexivity.
Qed.

(** Bit [i] of the wrapped value is bit [i] of the value below the sign
    position, and the sign bit from there on. *)
Lemma testbit_wrap (b v i : Z) :
  1 <= b -> 0 <= i ->
  Z.testbit (wrap b v) i = Z.testbit v (Z.min i (b - 1)).
Proof.
  intros Hb Hi. rewrite <- (set_value_wrap v b Hb).
  rewrite sign_bit, mask_ones by lia.
  destruct (Z.testbit v (b - 1)) eqn:Hs.
  - rewrite Z.lor_spec, Z.lnot_spec, Z.testbit_ones_nonneg by lia.
    destruct (Z.ltb_spec i b); simpl.
    + rewrite orb_false_r, Z.min_l by lia. reflexivity.
    + rewrite orb_true_r, Z.min_r, Hs by lia. reflexivity.
  - rewrite Z.land_spec, Z.testbit_ones_nonneg by lia.
    destruct (Z.ltb_spec i b); simpl.
    + rewrite andb_true_r, Z.min_l by lia. reflexivity.
    + rewrite andb_false_r, Z.min_r, Hs by lia. reflexivity.
Qed.

Lemma wrap_bitwise (f : Z -> Z -> Z) (g : bool -> bool -> bool) (b x y : Z) :
  (forall u v n, Z.testbit (f u v) n = g (Z.testbit u n) (Z.testbit v n)) ->
  1 <= b -> wrap b (f x y) = f (wrap b x) (wrap b y).
Proof.
  intros Hf Hb. apply Z.bits_inj'. intros n Hn.
  rewrite Hf, !testbit_wrap, Hf by assumption. reflexivity.
Qed.

(** X9. The bitwise operators never overflow.  For a register of at
    least one bit holding a value in range and an operand in range,
    [&], [|] and [^] return a new register of the same width holding
    exactly the bitwise combination of the two values, and [^] with -1
    holds the complement [-value - 1]. *)
Theorem register_bitwise_exact (bits : Z) (i : bool) (x : Z) (o : operand) :
  1 <= bits ->
  - 2 ^ (bits - 1) <= x < 2 ^ (bits - 1) ->
  - 2 ^ (bits - 1) <= py_int o < 2 ^ (bits - 1) ->
  let a := Register.mk bits i x in
  Register.and a o = Ok (Register.mk bits false (Z.land x (py_int o))) /\
  Register.or a o = Ok (Register.mk bits false (Z.lor x (py_int o))) /\
  Register.xor a o = Ok (Register.mk bits false (Z.lxor x (py_int o))) /\
  Register.xor a (OInt (-1)) = Ok (Register.mk bits false (- x - 1)).
Proof.
  intros Hb Hx Ho a.
  assert (Wx : wrap bits x = x) by (apply wrap_small; assumption).
  assert (Wo : wrap bits (py_int o) = py_int o) by (apply wrap_small; assumption).
  assert (Hand : wrap bits (Z.land x (py_int o)) = Z.land x (py_int o)).
  { rewrite (wrap_bitwise Z.land andb) by (auto using Z.land_spec).
    rewrite Wx, Wo. reflexivity. }
  assert (Hor : wrap bits (Z.lor x (py_int o)) = Z.lor x (py_int o)).
  { rewrite (wrap_bitwise Z.lor orb) by (auto using Z.lor_spec).
    rewrite Wx, Wo. reflexivity. }
  assert (Hxor : wrap bits (Z.lxor x (py_int o)) = Z.lxor x (py_int o)).
  { rewrite (wrap_bitwise Z.lxor xorb) by (auto using Z.lxor_spec).
    rewrite Wx, Wo. reflexivity. }
  split; [| split; [| split]].
  - unfold Register.and.
    destruct o; simpl in *; rewrite Register_fresh_ok by exact Hb;
      simpl; rewrite Hand; reflexivity.
  - unfold Register.or.
    destruct o; simpl in *; rewrite Register_fresh_ok by exact Hb;
      simpl; rewrite Hor; reflexivity.
  - unfold Register.xor.
    destruct o; simpl in *; rewrite Register_fresh_ok by exact Hb;
      simpl; rewrite Hxor; reflexivity.
  - unfold Register.xor. rewrite Register_fresh_ok by exact Hb. simpl.
    rewrite Z.lxor_m1_r. unfold Z.lnot.
    replace (Z.pred (- x)) with (- x - 1) by lia.
    rewrite wrap_small by lia. reflexivity.
Qed.

Lemma register_bitwise_exact_witness :
  1 <= 32 /\
  Register.and (Register.mk 32 false (-1)) (OInt (-2147483648))
    = Ok (Register.mk 32 false (-2147483648)) /\
  Register.xor (Register.mk 32 false 5) (OInt (-1))
    = Ok (Register.mk 32 false (-6)).
Proof.
  split; [lia |].
  destruct (register_bitwise_exact 32 false (-1) (OInt (-2147483648))
              ltac:(lia) ltac:(lia) ltac:(simpl; lia)) as (Hand & _).
  destruct (register_bitwise_exact 32 false 5 (OInt 0)
              ltac:(lia) ltac:(lia) ltac:(simpl; lia)) as (_ & _ & _ & Hnot).
  split; [exact Hand | exact Hnot].
Defined.

Lemma Register_lshift_unfold (a : Register.t) (o : operand) :
  Register.lshift a o =
    (_ <- Register.init (Register.bits a) ;;
     v <- Py.lshift (Register.value a) (py_int o) ;; Register.fresh a v).
Proof. unfold Register.lshift. destruct o; reflexivity. Qed.

Lemma Register_rshift_unfold (a : Register.t) (o : operand) :
  Register.rshift a o =
    (_ <- Register.init (Register.bits a) ;;
     v <- Py.rshift (Register.value a) (py_int o) ;; Register.fresh a v).
Proof. unfold Register.rshift. destruct o; reflexivity. Qed.

(** X10. Register shifts.  A negative shift count makes [<<] and [>>]
    raise ValueError, whatever the register.  On a register of at least
    one bit and a count [n >= 0]: [<<] holds [value * 2^n] wrapped,
    which is 0 as soon as [n >= bits]; [>>] on a value in range holds
    exactly [value / 2^n] rounded towards minus infinity, which is -1
    for a negative value and 0 otherwise as soon as [n >= bits - 1]. *)
Theorem register_shifts (bits : Z) (i : bool) (x : Z) (o : operand) :
  let a := Register.mk bits i x in
  (py_int o < 0 ->
   Register.lshift a o = Raise ValueError /\
   Register.rshift a o = Raise ValueError) /\
  (1 <= bits -> 0 <= py_int o ->
   Register.lshift a o = rewrapped a (x * 2 ^ py_int o) /\
   (bits <= py_int o -> Register.lshift a o = Ok (Register.mk bits false 0)) /\
   (- 2 ^ (bits - 1) <= x < 2 ^ (bits - 1) ->
    Register.rshift a o = Ok (Register.mk bits false (x / 2 ^ py_int o)) /\
    (bits - 1 <= py_int o -> x / 2 ^ py_int o = if x <? 0 then -1 else 0))).
Proof.
  intros a. rewrite Register_lshift_unfold, Register_rshift_unfold.
  unfold Register.init, Py.lshift, Py.rshift. simpl. split.
  - intros Hn.
    destruct (Z.ltb_spec bits 0); simpl; [auto |].
    destruct (Z.ltb_spec (py_int o) 0); [auto | lia].
  - intros Hb Hn.
    destruct (pow2_split bits Hb) as [E P].
    destruct (Z.ltb_spec bits 0); [lia |]. simpl.
    destruct (Z.ltb_spec (py_int o) 0); [lia |]. simpl.
    rewrite !Register_fresh_ok by exact Hb. simpl.
    rewrite Z.shiftl_mul_pow2 by lia.
    split; [reflexivity |]. split.
    + intros Hge. unfold rewrapped. simpl. do 2 f_equal.
      unfold wrap.
      replace (x * 2 ^ py_int o) with (x * 2 ^ (py_int o - bits) * 2 ^ bits).
      * rewrite Z.add_comm, Z_mod_plus_full, Z.mod_small by lia. lia.
      * rewrite <- Z.mul_assoc, <- Z.pow_add_r by lia. do 2 f_equal. lia.
    + intros Hx.
      destruct (shiftr_in_range bits x (py_int o) Hb Hn (wrap_small bits x Hb Hx))
        as [Hw _].
      rewrite Hw. split; [reflexivity |].
      intros Hge.
      assert (Hp : 2 ^ (bits - 1) <= 2 ^ py_int o)
        by (apply Z.pow_le_mono_r; lia).
      destruct (Z.ltb_spec x 0).
      * symmetry. apply Z.div_unique with (r := x + 2 ^ py_int o); lia.
      * apply Z.div_small. lia.
Qed.

Lemma register_shifts_witness :
  Register.rshift (Register.mk 32 false 8) (OInt (-1)) = Raise ValueError /\
  1 <= 32 /\
  Register.lshift (Register.mk 32 false 3) (OInt 31)
    = Ok (Register.mk 32 false (-2147483648)) /\
  Register.rshift (Register.mk 32 false (-9)) (OInt 2)
    = Ok (Register.mk 32 false (-3)).
Proof.
  destruct (register_shifts 32 false 8 (OInt (-1))) as [Hneg _].
  destruct (register_shifts 32 false 3 (OInt 31)) as [_ Hl].
  destruct (register_shifts 32 false (-9) (OInt 2)) as [_ Hr].
  split; [apply Hneg; simpl; lia |]. split; [lia |]. split.
  - destruct (Hl ltac:(lia) ltac:(simpl; lia)) as (Hv & _). exact Hv.
  - destruct (Hr ltac:(lia) ltac:(simpl; lia)) as (_ & _ & Hv).
    destruct (Hv ltac:(lia)) as [Hq _]. exact Hq.
Defined.

(** * Further properties of RegisterFile *)

Lemma init_immutable_spec (items : list (Z * Z)) :
  forall rs : list Register.t,
    Forall (fun r => 1 <= Register.bits r) rs ->
    Forall (fun kv => exists p, Py.position (length rs) (fst kv) = Ok p) items ->
    exists rs',
      RegisterFile.init_immutable rs items = Ok rs' /\
      length rs' = length rs /\
      forall p r, nth_error rs p = Some r ->
                  nth_error rs' p = Some (hardwired r (first_item (length rs) p items)).
Proof.
  induction items as [| [k v] items IH]; intros rs Hrs Hks.
  - exists rs. simpl. auto.
  - inversion Hks as [| ? ? [p0 Hp0] Hks']; subst. simpl in Hp0.
    destruct (position_getitem rs _ _ Hp0) as [r0 Hr0].
    assert (Hb0 : 1 <= Register.bits r0).
    { rewrite Forall_forall in Hrs. apply Hrs. eapply nth_error_In; eauto. }
    simpl. rewrite Hp0, (getitem_intro _ _ _ _ Hp0 Hr0). simpl.
    rewrite Register_set_ok by exact Hb0.
    set (r1 := Register.set_immutable _ true).
    destruct (IH (Py.replace p0 r1 rs)) as (rs' & Hi & Hlen & Hnth).
    + apply Forall_replace; [exact Hrs | exact Hb0].
    + rewrite replace_length. exact Hks'.
    + exists rs'. rewrite replace_length in *. repeat split; auto.
      intros p r Hr. unfold designates. rewrite Hp0.
      destruct (Nat.eqb_spec p0 p) as [-> | Hne].
      * assert (r = r0) by congruence. subst r.
        rewrite (Hnth p r1) by
          (apply nth_error_replace_eq; eapply position_lt; eauto).
        f_equal. subst r1.
        destruct (first_item (length rs) p items) as [v' |]; simpl.
        -- rewrite wrap_idempotent by exact Hb0. reflexivity.
        -- reflexivity.
      * rewrite (Hnth p r) by (rewrite nth_error_replace_neq; auto).
        reflexivity.
Qed.

Lemma Forall_repeat {A : Type} (P : A -> Prop) (a : A) (n : nat) :
  P a -> Forall P (repeat a n).
Proof. intros Ha. induction n; simpl; constructor; auto. Qed.

Lemma nth_error_repeat_lt {A : Type} (a : A) (n p : nat) :
  (p < n)%nat -> nth_error (repeat a n) p = Some a.
Proof.
  revert p. induction n as [| n IH]; intros [| p] Hp; simpl; try lia; auto.
  apply IH. lia.
Qed.

(** X11. What the constructor builds.  With a width of at least one bit
    and every key of [immutable] designating one of the [num]
    registers, [RegisterFile(num, bits, immutable)] returns a file of
    [num] registers of [bits] bits with an empty pending log, which
    satisfies the invariant; a register that no key designates is
    mutable and holds 0, a register that a key designates is immutable
    and holds the value of the first such item, wrapped to the width. *)
Theorem registerfile_init_state (num bits : Z) (items : list (Z * Z)) :
  1 <= bits ->
  Forall (fun kv => exists p, Py.position (Z.to_nat num) (fst kv) = Ok p) items ->
  exists rf,
    RegisterFile.init num bits items = Ok rf /\
    RegisterFile.num rf = num /\
    RegisterFile.bits rf = bits /\
    RegisterFile.regs_updates rf = [] /\
    length (RegisterFile.regs rf) = Z.to_nat num /\
    RegisterFile_ok rf /\
    forall p, (p < Z.to_nat num)%nat ->
      nth_error (RegisterFile.regs rf) p =
        Some (match first_item (Z.to_nat num) p items with
              | None => Register.mk bits false 0
              | Some v => Register.mk bits true (wrap bits v)
              end).
Proof.
  intros Hb Hks.
  destruct (init_ok num bits items Hb Hks) as (rf & Hinit & Hok & Hlog & Hlen).
  exists rf. split; [exact Hinit |].
  unfold RegisterFile.init in Hinit.
  rewrite init_regs_ok in Hinit by lia. simpl in Hinit.
  destruct (init_immutable_spec items (repeat (Register.mk bits false 0) (Z.to_nat num)))
    as (rs' & Hi & Hlen' & Hnth).
  { apply Forall_repeat. simpl. exact Hb. }
  { rewrite repeat_length. exact Hks. }
  rewrite Hi in Hinit. simpl in Hinit. injection Hinit as <-. simpl.
  rewrite repeat_length in *.
  repeat split; auto; try apply Hok.
  intros p Hp.
  rewrite (Hnth p (Register.mk bits false 0)) by (apply nth_error_repeat_lt; exact Hp).
  destruct (first_item (Z.to_nat num) p items); reflexivity.
Qed.

Lemma registerfile_init_state_witness :
  1 <= 32 /\
  exists rf,
    RegisterFile.init 32 32 [(0, 0); (-1, 4294967295)] = Ok rf /\
    RegisterFile_ok rf /\
    nth_error (RegisterFile.regs rf) 0 = Some (Register.mk 32 true 0) /\
    nth_error (RegisterFile.regs rf) 1 = Some (Register.mk 32 false 0) /\
    nth_error (RegisterFile.regs rf) 31 = Some (Register.mk 32 true (-1)).
Proof.
  split; [lia |].
  destruct (registerfile_init_state 32 32 [(0, 0); (-1, 4294967295)] ltac:(lia))
    as (rf & Hinit & _ & _ & _ & _ & Hok & Hnth).
  { repeat constructor; simpl; eexists; reflexivity. }
  exists rf. split; [exact Hinit |]. split; [exact Hok |].
  split; [| split].
  - apply (Hnth 0%nat). simpl. lia.
  - apply (Hnth 1%nat). simpl. lia.
  - apply (Hnth 31%nat). simpl. lia.
Defined.

Lemma position_in_range (len : nat) (k : Z) :
  - Z.of_nat len <= k < Z.of_nat len ->
  exists p, Py.position len k = Ok p /\
            Z.of_nat p = if k <? 0 then Z.of_nat len + k else k.
Proof.
  intros Hk. unfold Py.position.
  destruct (Z.leb_spec 0 k), (Z.ltb_spec k (Z.of_nat len)); simpl; try lia.
  - exists (Z.to_nat k). split; [reflexivity |].
    destruct (Z.ltb_spec k 0); lia.
  - destruct (Z.leb_spec (- Z.of_nat len) k), (Z.ltb_spec k 0); simpl; try lia.
    exists (Z.to_nat (Z.of_nat len + k)). split; [reflexivity | lia].
Qed.

Lemma position_out_of_range (len : nat) (k : Z) :
  k < - Z.of_nat len \/ Z.of_nat len <= k ->
  Py.position len k = Raise IndexError.
Proof.
  intros Hk. unfold Py.position.
  destruct (Z.leb_spec 0 k), (Z.ltb_spec k (Z.of_nat len)); simpl; try lia;
    destruct (Z.leb_spec (- Z.of_nat len) k), (Z.ltb_spec k 0); simpl; try lia;
    reflexivity.
Qed.

(** X12. Subscripts of a register file.  A key outside
    [-len .. len-1], [len] being the number of registers, makes
    [__getitem__] and [__setitem__] raise IndexError, the write leaving
    the file unchanged; in a file without registers every key does.  A
    key within [-len .. len-1] designates a register, and a negative
    key [k] reads the same register as [len + k]. *)
Theorem registerfile_subscripts (rf : RegisterFile.t) (key : Z) (v : operand) :
  let len := Z.of_nat (length (RegisterFile.regs rf)) in
  (key < - len \/ len <= key ->
   RegisterFile.getitem rf key = Raise IndexError /\
   RegisterFile.setitem rf key v = (Raise IndexError, rf)) /\
  (- len <= key < len ->
   exists r, RegisterFile.getitem rf key = Ok r) /\
  (- len <= key < 0 ->
   RegisterFile.getitem rf key = RegisterFile.getitem rf (len + key)).
Proof.
  cbv zeta. unfold RegisterFile.getitem, RegisterFile.setitem, Py.getitem.
  split; [| split].
  - intros Hk. rewrite position_out_of_range by exact Hk. auto.
  - intros Hk. destruct (position_in_range _ key Hk) as (p & Hp & _).
    rewrite Hp. destruct (position_getitem _ _ _ Hp) as [r Hr].
    rewrite Hr. eauto.
  - intros Hk.
    destruct (position_in_range (length (RegisterFile.regs rf)) key ltac:(lia))
      as (p & Hp & Hpv).
    destruct (position_in_range (length (RegisterFile.regs rf))
                (Z.of_nat (length (RegisterFile.regs rf)) + key) ltac:(lia))
      as (q & Hq & Hqv).
    rewrite Hp, Hq.
    destruct (Z.ltb_spec key 0); [| lia].
    destruct (Z.ltb_spec (Z.of_nat (length (RegisterFile.regs rf)) + key) 0); [lia |].
    replace q with p by lia. reflexivity.
Qed.

Lemma registerfile_subscripts_witness :
  RegisterFile.getitem rv32_intreg 32 = Raise IndexError /\
  RegisterFile.setitem rv32_intreg (-33) (OInt 1) = (Raise IndexError, rv32_intreg) /\
  RegisterFile.getitem rv32_intreg (-32) = RegisterFile.getitem rv32_intreg 0.
Proof.
  destruct (registerfile_subscripts rv32_intreg 32 (OInt 1)) as [Hout _].
  destruct (registerfile_subscripts rv32_intreg (-33) (OInt 1)) as [Hout' _].
  destruct (registerfile_subscripts rv32_intreg (-32) (OInt 1)) as (_ & _ & Hneg).
  split; [apply Hout; simpl; lia |].
  split; [apply Hout'; simpl; lia |].
  apply Hneg. simpl. lia.
Defined.

Lemma setitem_preserves_ok (rf : RegisterFile.t) (key : Z) (v : operand) :
  RegisterFile_ok rf -> RegisterFile_ok (snd (RegisterFile.setitem rf key v)).
Proof.
  intros Hok.
  destruct (RegisterFile.getitem rf key) as [r | e] eqn:Hr.
  - destruct (Register.immutable r) eqn:Hi.
    + rewrite (setitem_immutable rf key v r Hr Hi). exact Hok.
    + rewrite (setitem_mutable rf key v r (ok_bits _ Hok) Hr Hi). simpl.
      apply ok_append; [exact Hok |].
      apply getitem_inv in Hr as (p & Hp & _). exists p. exact Hp.
  - unfold RegisterFile.setitem. unfold RegisterFile.getitem in Hr.
    rewrite Hr. exact Hok.
Qed.

(** X13. The invariant of a register file (a width of at least one bit
    shared by all registers, stored values within the two's-complement
    range, pending records designating existing registers) is kept by
    [__setitem__], whatever the key and the value and whether or not it
    raises, and by [commit()], which on such a file never raises. *)
Theorem registerfile_invariant_kept (rf : RegisterFile.t) (key : Z) (v : operand) :
  RegisterFile_ok rf ->
  RegisterFile_ok (snd (RegisterFile.setitem rf key v)) /\
  fst (RegisterFile.commit rf) = Ok tt /\
  RegisterFile_ok (snd (RegisterFile.commit rf)).
Proof.
  intros Hok. split; [apply setitem_preserves_ok, Hok |].
  destruct (commit_ok rf Hok) as (rs' & Hc & _).
  split; [rewrite Hc; reflexivity |].
  apply (commit_preserves_ok rf); [exact Hok |].
  rewrite Hc. reflexivity.
Qed.

Lemma registerfile_invariant_kept_witness :
  RegisterFile_ok rv32_intreg /\
  RegisterFile_ok (snd (RegisterFile.setitem rv32_intreg 7 (OInt (2 ^ 35 + 1)))) /\
  fst (RegisterFile.commit rv32_intreg) = Ok tt.
Proof.
  destruct (registerfile_invariant_kept rv32_intreg 7 (OInt (2 ^ 35 + 1))
              rv32_intreg_ok) as (Hs & Hc & _).
  split; [exact rv32_intreg_ok |]. split; [exact Hs | exact Hc].
Defined.

Lemma nth_error_eq {A : Type} (l l' : list A) :
  (forall p, nth_error l p = nth_error l' p) -> l = l'.
Proof.
  revert l'. induction l as [| x l IH]; intros [| y l'] H.
  - reflexivity.
  - specialize (H 0%nat). discriminate.
  - specialize (H 0%nat). discriminate.
  - pose proof (H 0%nat) as H0. simpl in H0. injection H0 as <-.
    f_equal. apply IH. intros p. exact (H (S p)).
Qed.

Lemma commit_regs (rf : RegisterFile.t) (rs' : list Register.t) :
  length rs' = length (RegisterFile.regs rf) ->
  (forall p r,
      nth_error (RegisterFile.regs rf) p = Some r ->
      nth_error rs' p = Some r) ->
  rs' = RegisterFile.regs rf.
Proof.
  intros Hlen Hnth. apply nth_error_eq. intros p.
  destruct (nth_error (RegisterFile.regs rf) p) as [r |] eqn:Hr.
  - apply Hnth. exact Hr.
  - apply nth_error_None. apply nth_error_None in Hr. lia.
Qed.

(** X14. [commit()] is idempotent.  On a file satisfying the invariant,
    [commit()] leaves a file with an empty log on which a second
    [commit()] changes nothing; on a file whose log is already empty
    [commit()] changes nothing at all. *)
Theorem commit_idempotent (rf : RegisterFile.t) :
  RegisterFile_ok rf ->
  exists rf',
    RegisterFile.commit rf = (Ok tt, rf') /\
    RegisterFile.regs_updates rf' = [] /\
    RegisterFile.commit rf' = (Ok tt, rf') /\
    (RegisterFile.regs_updates rf = [] -> rf' = rf).
Proof.
  intros Hok.
  destruct (commit_ok rf Hok) as (rs' & Hc & Hlen & Hnth).
  eexists. split; [exact Hc |]. split; [reflexivity |]. split.
  - reflexivity.
  - intros Hlog. destruct rf as [n b rs us]. simpl in *. subst us.
    f_equal. apply (commit_regs (RegisterFile.mk n b rs [])); [exact Hlen |].
    simpl. intros p r Hr. rewrite (Hnth p r Hr). reflexivity.
Qed.

Lemma commit_idempotent_witness :
  let rf := RegisterFile.with_updates small_intreg [TraceRegister.mk 3 9] in
  RegisterFile_ok rf /\
  exists rf',
    RegisterFile.commit rf = (Ok tt, rf') /\
    RegisterFile.getitem rf' 3 = Ok (Register.mk 32 false 9) /\
    RegisterFile.commit rf' = (Ok tt, rf').
Proof.
  cbv zeta.
  assert (Hok : RegisterFile_ok
                  (RegisterFile.with_updates small_intreg [TraceRegister.mk 3 9])).
  { apply (ok_append small_intreg (TraceRegister.mk 3 9) small_intreg_ok).
    exists 3%nat. reflexivity. }
  split; [exact Hok |].
  destruct (commit_idempotent _ Hok) as (rf' & Hc & _ & Hcc & _).
  exists rf'. split; [exact Hc |]. split; [| exact Hcc].
  injection Hc as <-. reflexivity.
Defined.

Lemma last_write_app_gen (len p : nat) (l l' : list TraceRegister.t) :
  last_write len p (l ++ l') =
    match last_write len p l' with
    | Some z => Some z
    | None => last_write len p l
    end.
Proof.
  induction l as [| u l IH]; simpl.
  - destruct (last_write len p l'); reflexivity.
  - rewrite IH. destruct (last_write len p l'); reflexivity.
Qed.

(** X15. Write, commit, read.  On a file satisfying the invariant with
    an empty log, if [key] designates a mutable register, then
    [rf[key] = v] followed by [commit()] returns normally and afterwards
    a subscript designating the same register reads it holding [v]
    wrapped to the width, while a subscript designating another
    register reads what it read before. *)
Theorem write_commit_read
  (rf : RegisterFile.t) (key key' : Z) (v : operand) (r r' : Register.t) (p p' : nat) :
  RegisterFile_ok rf ->
  RegisterFile.regs_updates rf = [] ->
  Py.position (length (RegisterFile.regs rf)) key = Ok p ->
  Py.position (length (RegisterFile.regs rf)) key' = Ok p' ->
  RegisterFile.getitem rf key = Ok r ->
  RegisterFile.getitem rf key' = Ok r' ->
  Register.immutable r = false ->
  exists rf1 rf2,
    RegisterFile.setitem rf key v = (Ok tt, rf1) /\
    RegisterFile.commit rf1 = (Ok tt, rf2) /\
    RegisterFile.regs_updates rf2 = [] /\
    RegisterFile.getitem rf2 key' =
      Ok (if Nat.eqb p p'
          then Register.with_value r (wrap (RegisterFile.bits rf) (py_int v))
          else r').
Proof.
  intros Hok Hlog Hp Hp' Hr Hr' Hi.
  pose proof (setitem_mutable rf key v r (ok_bits _ Hok) Hr Hi) as Hs.
  rewrite Hlog in Hs. simpl in Hs.
  set (u := TraceRegister.mk key (wrap (RegisterFile.bits rf) (py_int v))) in *.
  assert (Hok1 : RegisterFile_ok (RegisterFile.with_updates rf [u])).
  { pose proof (ok_append rf u Hok) as H. rewrite Hlog in H. apply H.
    exists p. exact Hp. }
  destruct (commit_ok _ Hok1) as (rs' & Hc & Hlen & Hnth). simpl in *.
  eexists. eexists. split; [exact Hs |]. split; [exact Hc |].
  split; [reflexivity |].
  unfold RegisterFile.getitem in *. simpl.
  apply getitem_inv in Hr as (q & Hq & Hqr).
  apply getitem_inv in Hr' as (q' & Hq' & Hqr').
  assert (q = p) by congruence. assert (q' = p') by congruence. subst q q'.
  apply getitem_intro with (p := p'); [rewrite Hlen; exact Hp' |].
  rewrite (Hnth p' r' Hqr'). unfold targets. simpl. rewrite Hp. f_equal.
  destruct (Nat.eqb_spec p p') as [<- | Hne]; [| reflexivity].
  assert (r' = r) by congruence. subst r'. simpl. rewrite Hi.
  destruct Hok as [Hb Hrs _]. rewrite Forall_forall in Hrs.
  destruct (Hrs r (nth_error_In _ _ Hqr)) as [-> _].
  rewrite wrap_idempotent by exact Hb. reflexivity.
Qed.

Lemma write_commit_read_witness :
  RegisterFile_ok rv32_intreg /\
  exists rf1 rf2,
    RegisterFile.setitem rv32_intreg (-1) (OInt 4294967295) = (Ok tt, rf1) /\
    RegisterFile.commit rf1 = (Ok tt, rf2) /\
    RegisterFile.getitem rf2 31 = Ok (Register.mk 32 false (-1)).
Proof.
  split; [exact rv32_intreg_ok |].
  destruct (write_commit_read rv32_intreg (-1) 31 (OInt 4294967295)
              (Register.mk 32 false 0) (Register.mk 32 false 0) 31 31
              rv32_intreg_ok eq_refl eq_refl eq_refl eq_refl eq_refl eq_refl)
    as (rf1 & rf2 & Hs & Hc & _ & Hg).
  exists rf1, rf2. split; [exact Hs |]. split; [exact Hc | exact Hg].
Defined.

(** X16. Pending writes to different registers commute.  On a file
    satisfying the invariant, if two keys designate two different
    mutable registers, writing the first then the second and committing
    leaves the same file as writing the second then the first and
    committing. *)
Theorem writes_to_distinct_registers_commute
  (rf : RegisterFile.t) (k1 k2 : Z) (v1 v2 : operand)
  (r1 r2 : Register.t) (p1 p2 : nat) :
  RegisterFile_ok rf ->
  Py.position (length (RegisterFile.regs rf)) k1 = Ok p1 ->
  Py.position (length (RegisterFile.regs rf)) k2 = Ok p2 ->
  p1 <> p2 ->
  RegisterFile.getitem rf k1 = Ok r1 -> Register.immutable r1 = false ->
  RegisterFile.getitem rf k2 = Ok r2 -> Register.immutable r2 = false ->
  exists a1 a2 b1 b2 final,
    RegisterFile.setitem rf k1 v1 = (Ok tt, a1) /\
    RegisterFile.setitem a1 k2 v2 = (Ok tt, a2) /\
    RegisterFile.commit a2 = (Ok tt, final) /\
    RegisterFile.setitem rf k2 v2 = (Ok tt, b1) /\
    RegisterFile.setitem b1 k1 v1 = (Ok tt, b2) /\
    RegisterFile.commit b2 = (Ok tt, final).
Proof.
  intros Hok Hp1 Hp2 Hne Hr1 Hi1 Hr2 Hi2.
  pose proof (ok_bits _ Hok) as Hb.
  set (u1 := TraceRegister.mk k1 (wrap (RegisterFile.bits rf) (py_int v1))).
  set (u2 := TraceRegister.mk k2 (wrap (RegisterFile.bits rf) (py_int v2))).
  assert (Hu1 : resolves (length (RegisterFile.regs rf)) u1) by (exists p1; exact Hp1).
  assert (Hu2 : resolves (length (RegisterFile.regs rf)) u2) by (exists p2; exact Hp2).
  set (a1 := RegisterFile.with_updates rf (RegisterFile.regs_updates rf ++ [u1])).
  set (b1 := RegisterFile.with_updates rf (RegisterFile.regs_updates rf ++ [u2])).
  set (a2 := RegisterFile.with_updates a1 (RegisterFile.regs_updates a1 ++ [u2])).
  set (b2 := RegisterFile.with_updates b1 (RegisterFile.regs_updates b1 ++ [u1])).
  assert (Hoka1 : RegisterFile_ok a1) by (apply ok_append; assumption).
  assert (Hokb1 : RegisterFile_ok b1) by (apply ok_append; assumption).
  assert (Hoka2 : RegisterFile_ok a2) by (apply ok_append; assumption).
  assert (Hokb2 : RegisterFile_ok b2) by (apply ok_append; assumption).
  destruct (commit_ok a2 Hoka2) as (rsa & Hca & Hlena & Hntha).
  destruct (commit_ok b2 Hokb2) as (rsb & Hcb & Hlenb & Hnthb).
  assert (Heq : rsa = rsb).
  { apply nth_error_eq. intros p. simpl in *.
    destruct (nth_error (RegisterFile.regs rf) p) as [r |] eqn:Hr.
    - rewrite (Hntha p r Hr), (Hnthb p r Hr). do 2 f_equal.
      rewrite <- !app_assoc. rewrite !last_write_app_gen. simpl.
      unfold targets. simpl. rewrite Hp1, Hp2.
      destruct (Nat.eqb_spec p1 p), (Nat.eqb_spec p2 p); try reflexivity.
      congruence.
    - apply nth_error_None in Hr.
      assert (Ha : nth_error rsa p = None) by (apply nth_error_None; lia).
      assert (Hb' : nth_error rsb p = None) by (apply nth_error_None; lia).
      congruence. }
  exists a1, a2, b1, b2,
    (RegisterFile.mk (RegisterFile.num rf) (RegisterFile.bits rf) rsa []).
  split; [apply (setitem_mutable rf k1 v1 r1); assumption |].
  split; [apply (setitem_mutable a1 k2 v2 r2); assumption |].
  split; [exact Hca |].
  split; [apply (setitem_mutable rf k2 v2 r2); assumption |].
  split; [apply (setitem_mutable b1 k1 v1 r1); assumption |].
  rewrite Heq. exact Hcb.
Qed.

Lemma writes_to_distinct_registers_commute_witness :
  RegisterFile_ok small_intreg /\
  exists a1 a2 b1 b2 final,
    RegisterFile.setitem small_intreg 1 (OInt 6) = (Ok tt, a1) /\
    RegisterFile.setitem a1 3 (OInt 7) = (Ok tt, a2) /\
    RegisterFile.commit a2 = (Ok tt, final) /\
    RegisterFile.setitem small_intreg 3 (OInt 7) = (Ok tt, b1) /\
    RegisterFile.setitem b1 1 (OInt 6) = (Ok tt, b2) /\
    RegisterFile.commit b2 = (Ok tt, final).
Proof.
  split; [exact small_intreg_ok |].
  apply (writes_to_distinct_registers_commute small_intreg 1 3 (OInt 6) (OInt 7)
           (Register.mk 32 false (-8)) (Register.mk 32 false 0) 1 3
           small_intreg_ok eq_refl eq_refl);
    [discriminate | reflexivity | reflexivity | reflexivity | reflexivity].
Defined.

Lemma Register_randomize_ok (r : Register.t) (d : Z) :
  1 <= Register.bits r ->
  Register.randomize r d =
    (Ok tt, if Register.immutable r then r else Register.with_value r d).
Proof.
  intros Hb. unfold Register.randomize, Py.lshift.
  destruct (Register.immutable r); simpl; [reflexivity |].
  destruct (Z.ltb_spec (Register.bits r - 1) 0); [lia | reflexivity].
Qed.

Lemma position_of_nat (len i : nat) :
  (i < len)%nat -> Py.position len (Z.of_nat i) = Ok i.
Proof.
  intros Hi. unfold Py.position.
  destruct (Z.leb_spec 0 (Z.of_nat i)); [| lia].
  destruct (Z.ltb_spec (Z.of_nat i) (Z.of_nat len)); [| lia].
  simpl. rewrite Nat2Z.id. reflexivity.
Qed.

Lemma randomize_loop_spec (draw : nat -> Z) (n : nat) :
  forall (i : nat) (rs : list Register.t),
    Forall (fun r => 1 <= Register.bits r) rs ->
    (i + n <= length rs)%nat ->
    exists rs',
      RegisterFile.randomize_loop rs draw i n = (Ok tt, rs') /\
      length rs' = length rs /\
      forall p r,
        nth_error rs p = Some r ->
        nth_error rs' p =
          Some (if (i <=? p)%nat && (p <? i + n)%nat && negb (Register.immutable r)
                then Register.with_value r (draw p) else r).
Proof.
  induction n as [| n IH]; intros i rs Hrs Hn.
  - exists rs. simpl. repeat split; auto.
    intros p r Hr. rewrite Hr. f_equal.
    destruct (Nat.leb_spec i p), (Nat.ltb_spec p (i + 0)); simpl; try reflexivity.
    lia.
  - assert (Hi : (i < length rs)%nat) by lia.
    pose proof (position_of_nat _ _ Hi) as Hp.
    destruct (position_getitem rs _ _ Hp) as [r0 Hr0].
    assert (Hb0 : 1 <= Register.bits r0).
    { rewrite Forall_forall in Hrs. apply Hrs. eapply nth_error_In; eauto. }
    simpl. rewrite (getitem_intro _ _ _ _ Hp Hr0).
    rewrite Register_randomize_ok by exact Hb0.
    set (r0' := if Register.immutable r0 then r0 else _).
    destruct (IH (S i) (Py.replace i r0' rs)) as (rs' & Hl & Hlen & Hnth).
    + apply Forall_replace; [exact Hrs |].
      subst r0'. destruct (Register.immutable r0); exact Hb0.
    + rewrite replace_length. lia.
    + exists rs'. rewrite replace_length in Hlen.
      split; [exact Hl |]. split; [exact Hlen |].
      intros p r Hr.
      destruct (Nat.eq_dec i p) as [-> | Hne].
      * assert (r = r0) by congruence. subst r.
        rewrite (Hnth p r0') by (apply nth_error_replace_eq; exact Hi).
        f_equal.
        destruct (Nat.leb_spec (S p) p); [lia |].
        destruct (Nat.leb_spec p p); [| lia].
        destruct (Nat.ltb_spec p (p + S n)); [| lia].
        simpl. subst r0'. destruct (Register.immutable r0); reflexivity.
      * rewrite (Hnth p r) by (rewrite nth_error_replace_neq; auto).
        f_equal.
        destruct (Nat.leb_spec (S i) p), (Nat.leb_spec i p);
          destruct (Nat.ltb_spec p (S i + n)), (Nat.ltb_spec p (i + S n));
          simpl; try reflexivity; lia.
Qed.

(** X17. [randomize()] of a register file whose registers all have at
    least one bit and whose [num] is the number of its registers
    returns normally; it leaves [num], [bits] and the pending log as
    they are, leaves every immutable register as it is, and stores in
    every mutable register the integer drawn for it, unwrapped. *)
Theorem registerfile_randomize_frame (rf : RegisterFile.t) (draw : nat -> Z) :
  Forall (fun r => 1 <= Register.bits r) (RegisterFile.regs rf) ->
  Z.to_nat (RegisterFile.num rf) = length (RegisterFile.regs rf) ->
  exists rs',
    RegisterFile.randomize rf draw = (Ok tt, RegisterFile.with_regs rf rs') /\
    length rs' = length (RegisterFile.regs rf) /\
    forall p r,
      nth_error (RegisterFile.regs rf) p = Some r ->
      nth_error rs' p =
        Some (if Register.immutable r then r
              else Register.with_value r (draw p)).
Proof.
  intros Hrs Hnum. unfold RegisterFile.randomize. rewrite Hnum.
  destruct (randomize_loop_spec draw (length (RegisterFile.regs rf)) 0
              (RegisterFile.regs rf) Hrs ltac:(lia))
    as (rs' & Hl & Hlen & Hnth).
  exists rs'. rewrite Hl. split; [reflexivity |]. split; [exact Hlen |].
  intros p r Hr. rewrite (Hnth p r Hr). f_equal.
  assert (Hp : (p < length (RegisterFile.regs rf))%nat)
    by (apply nth_error_Some; congruence).
  destruct (Nat.ltb_spec p (0 + length (RegisterFile.regs rf))); [| lia].
  simpl. destruct (Register.immutable r); reflexivity.
Qed.

Lemma registerfile_randomize_frame_witness :
  Forall (fun r => 1 <= Register.bits r) (RegisterFile.regs small_intreg) /\
  Z.to_nat (RegisterFile.num small_intreg) = length (RegisterFile.regs small_intreg) /\
  exists rs',
    RegisterFile.randomize small_intreg (fun p => Z.of_nat p + 10)
      = (Ok tt, RegisterFile.with_regs small_intreg rs') /\
    nth_error rs' 0 = Some (Register.mk 32 true 0) /\
    nth_error rs' 2 = Some (Register.mk 32 false 12).
Proof.
  assert (H1 : Forall (fun r => 1 <= Register.bits r) (RegisterFile.regs small_intreg)).
  { simpl. repeat constructor; simpl; lia. }
  split; [exact H1 |]. split; [reflexivity |].
  destruct (registerfile_randomize_frame small_intreg (fun p => Z.of_nat p + 10)
              H1 eq_refl) as (rs' & Hr & _ & Hnth).
  exists rs'. split; [exact Hr |]. split.
  - apply (Hnth 0%nat (Register.mk 32 true 0)). reflexivity.
  - apply (Hnth 2%nat (Register.mk 32 false 1)). reflexivity.
Defined.

(** * Further properties of isa.py *)

Lemma intreg_setitem_written {Mem : Type} (model : State Mem) (rd : Z)
  (d : Register.t) (v : operand) :
  RegisterFile_ok (intreg model) ->
  RegisterFile.getitem (intreg model) rd = Ok d ->
  intreg_setitem model rd v =
    written model rd d (wrap (RegisterFile.bits (intreg model)) (py_int v)).
Proof.
  intros Hok Hd. unfold intreg_setitem, written.
  destruct (Register.immutable d) eqn:Hi.
  - rewrite (setitem_immutable _ rd v d Hd Hi). destruct model; reflexivity.
  - rewrite (setitem_mutable _ rd v d (ok_bits _ Hok) Hd Hi). reflexivity.
Qed.

Lemma ok_register {Mem : Type} (model : State Mem) (k : Z) (a : Register.t) :
  RegisterFile_ok (intreg model) ->
  RegisterFile.getitem (intreg model) k = Ok a ->
  Register.bits a = RegisterFile.bits (intreg model) /\
  1 <= Register.bits a /\
  wrap (Register.bits a) (Register.value a) = Register.value a /\
  - 2 ^ (Register.bits a - 1) <= Register.value a < 2 ^ (Register.bits a - 1).
Proof.
  intros Hok Ha. destruct Hok as [Hb Hrs _]. rewrite Forall_forall in Hrs.
  apply getitem_inv in Ha as (p & _ & Hp).
  destruct (Hrs a (nth_error_In _ _ Hp)) as [Hba Hw].
  split; [exact Hba |]. split; [lia |]. split; [exact Hw |].
  rewrite <- Hw. apply wrap_range. lia.
Qed.

Lemma Register_and_ok (a : Register.t) (o : operand) :
  1 <= Register.bits a ->
  Register.and a o = rewrapped a (Z.land (Register.value a) (py_int o)).
Proof.
  intros Hb. unfold Register.and. destruct o; apply Register_fresh_ok, Hb.
Qed.

Lemma Register_or_ok (a : Register.t) (o : operand) :
  1 <= Register.bits a ->
  Register.or a o = rewrapped a (Z.lor (Register.value a) (py_int o)).
Proof.
  intros Hb. unfold Register.or. destruct o; apply Register_fresh_ok, Hb.
Qed.

Lemma Register_xor_ok (a : Register.t) (o : operand) :
  1 <= Register.bits a ->
  Register.xor a o = rewrapped a (Z.lxor (Register.value a) (py_int o)).
Proof.
  intros Hb. unfold Register.xor. destruct o; apply Register_fresh_ok, Hb.
Qed.

Lemma Register_add_ok (a : Register.t) (o : operand) :
  1 <= Register.bits a ->
  Register.add a o = rewrapped a (Register.value a + py_int o).
Proof. intros Hb. apply Register_fresh_ok, Hb. Qed.

Lemma Register_sub_ok (a : Register.t) (o : operand) :
  1 <= Register.bits a ->
  Register.sub a o = rewrapped a (Register.value a - py_int o).
Proof. intros Hb. apply Register_fresh_ok, Hb. Qed.

(** X18. The register-register arithmetic instructions.  On a state
    whose register file satisfies the invariant, with [rs1], [rs2] and
    [rd] designating registers [a], [b] and [d]: add, sub, and, or and
    xor return normally, leave [pc], memory and the registers as they
    are, and append the single pending write (rd, result) unless [d] is
    immutable, in which case nothing changes.  The result is [a + b]
    and [a - b] wrapped to the width, and exactly the bitwise [a & b],
    [a | b], [a ^ b]. *)
Theorem rtype_arithmetic {Mem : Type} (self : InstructionRType)
  (model : State Mem) (a b d : Register.t) :
  RegisterFile_ok (intreg model) ->
  RegisterFile.getitem (intreg model) (r_rs1 self) = Ok a ->
  RegisterFile.getitem (intreg model) (r_rs2 self) = Ok b ->
  RegisterFile.getitem (intreg model) (r_rd self) = Ok d ->
  let bits := RegisterFile.bits (intreg model) in
  let x := Register.value a in
  let y := Register.value b in
  InstructionADD_execute self model = written model (r_rd self) d (wrap bits (x + y)) /\
  InstructionSUB_execute self model = written model (r_rd self) d (wrap bits (x - y)) /\
  InstructionAND_execute self model = written model (r_rd self) d (Z.land x y) /\
  InstructionOR_execute self model = written model (r_rd self) d (Z.lor x y) /\
  InstructionXOR_execute self model = written model (r_rd self) d (Z.lxor x y).
Proof.
  intros Hok Ha Hb Hd bits x y.
  destruct (ok_register model _ a Hok Ha) as (Hba & Hb1 & Hwa & Hra).
  destruct (ok_register model _ b Hok Hb) as (Hbb & _ & Hwb & Hrb).
  unfold InstructionADD_execute, InstructionSUB_execute, InstructionAND_execute,
    InstructionOR_execute, InstructionXOR_execute, attempt.
  rewrite Ha, Hb.
  rewrite Register_add_ok, Register_sub_ok, Register_and_ok, Register_or_ok,
    Register_xor_ok by exact Hb1.
  unfold rewrapped.
  rewrite !(intreg_setitem_written model _ d) by assumption.
  simpl. fold bits x y. rewrite Hba. fold bits.
  rewrite !wrap_idempotent by (subst bits; lia).
  assert (Hwx : wrap bits x = x) by (subst bits x; rewrite <- Hba; exact Hwa).
  assert (Hwy : wrap bits y = y)
    by (subst bits y; rewrite <- Hbb; exact Hwb).
  assert (H1 : 1 <= bits) by (subst bits; lia).
  rewrite (wrap_bitwise Z.land andb), (wrap_bitwise Z.lor orb),
    (wrap_bitwise Z.lxor xorb)
    by (auto using Z.land_spec, Z.lor_spec, Z.lxor_spec).
  rewrite Hwx, Hwy. repeat split.
Qed.

Lemma rtype_arithmetic_witness :
  let model := mkState small_intreg 0 tt in
  RegisterFile_ok (intreg model) /\
  InstructionSUB_execute (mkR 3 2 1) model =
    (Ok tt, mkState (RegisterFile.with_updates small_intreg [TraceRegister.mk 3 9]) 0 tt) /\
  InstructionXOR_execute (mkR 0 2 1) model = (Ok tt, model).
Proof.
  cbv zeta. split; [exact small_intreg_ok |].
  destruct (rtype_arithmetic (mkR 3 2 1) (mkState small_intreg 0 tt)
              (Register.mk 32 false 1) (Register.mk 32 false (-8))
              (Register.mk 32 false 0) small_intreg_ok eq_refl eq_refl eq_refl)
    as (_ & Hsub & _).
  destruct (rtype_arithmetic (mkR 0 2 1) (mkState small_intreg 0 tt)
              (Register.mk 32 false 1) (Register.mk 32 false (-8))
              (Register.mk 32 true 0) small_intreg_ok eq_refl eq_refl eq_refl)
    as (_ & _ & _ & _ & Hxor).
  split; [exact Hsub | exact Hxor].
Defined.

(** X19. The register-immediate arithmetic instructions.  On a state
    whose register file satisfies the invariant, with [rs1] and [rd]
    designating registers [a] and [d]: addi, andi, ori and xori return
    normally and append the single pending write (rd, result), or
    nothing when [d] is immutable; the result is [a + imm], [a & imm],
    [a | imm], [a ^ imm], computed on the immediate's signed value and
    wrapped to the width.  c.addi does the same as addi with
    [rs1 = rd]. *)
Theorem itype_arithmetic {Mem : Type} (self : InstructionIType)
  (model : State Mem) (a d : Register.t) :
  RegisterFile_ok (intreg model) ->
  RegisterFile.getitem (intreg model) (i_rs1 self) = Ok a ->
  RegisterFile.getitem (intreg model) (i_rd self) = Ok d ->
  let bits := RegisterFile.bits (intreg model) in
  let x := Register.value a in
  let i := Immediate.value (i_imm self) in
  InstructionADDI_execute self model = written model (i_rd self) d (wrap bits (x + i)) /\
  InstructionANDI_execute self model =
    written model (i_rd self) d (wrap bits (Z.land x i)) /\
  InstructionORI_execute self model =
    written model (i_rd self) d (wrap bits (Z.lor x i)) /\
  InstructionXORI_execute self model =
    written model (i_rd self) d (wrap bits (Z.lxor x i)) /\
  (i_rs1 self = i_rd self ->
   InstructionCADDI_execute (mkCI (i_rd self) (i_imm self)) model =
     InstructionADDI_execute self model).
Proof.
  intros Hok Ha Hd bits x i.
  destruct (ok_register model _ a Hok Ha) as (Hba & Hb1 & Hwa & Hra).
  unfold InstructionADDI_execute, InstructionANDI_execute, InstructionORI_execute,
    InstructionXORI_execute, InstructionCADDI_execute, attempt.
  cbn [ci_rd ci_imm]. rewrite Ha.
  rewrite Register_add_ok, Register_and_ok, Register_or_ok, Register_xor_ok
    by exact Hb1.
  unfold rewrapped.
  rewrite !(intreg_setitem_written model _ d) by assumption.
  cbn [py_int Register.py_int Register.value Register.bits].
  fold bits x i. rewrite Hba. fold bits.
  rewrite !wrap_idempotent by (subst bits; lia).
  repeat split.
  intros Heq. rewrite <- Heq, Ha.
  rewrite Register_add_ok by exact Hb1. unfold rewrapped.
  rewrite Heq.
  rewrite (intreg_setitem_written model _ d) by assumption.
  cbn [py_int Register.py_int Register.value Register.bits].
  fold x i. rewrite Hba. fold bits.
  rewrite !wrap_idempotent by (subst bits; lia). reflexivity.
Qed.

Lemma itype_arithmetic_witness :
  let model := mkState small_intreg 0 tt in
  RegisterFile_ok (intreg model) /\
  InstructionADDI_execute (mkI 3 1 (Immediate.mk 12 true false (-2040))) model =
    (Ok tt,
     mkState (RegisterFile.with_updates small_intreg [TraceRegister.mk 3 (-2048)]) 0 tt).
Proof.
  cbv zeta. split; [exact small_intreg_ok |].
  destruct (itype_arithmetic (mkI 3 1 (Immediate.mk 12 true false (-2040)))
              (mkState small_intreg 0 tt)
              (Register.mk 32 false (-8)) (Register.mk 32 false 0)
              small_intreg_ok eq_refl eq_refl)
    as (Haddi & _).
  exact Haddi.
Defined.

Lemma wrap_bit (bits : Z) (c : bool) :
  2 <= bits -> wrap bits (if c then 1 else 0) = if c then 1 else 0.
Proof.
  intros Hb. apply wrap_small; [lia |].
  assert (2 ^ 1 <= 2 ^ (bits - 1)) by (apply Z.pow_le_mono_r; lia).
  change (2 ^ 1) with 2 in *. destruct c; lia.
Qed.

(** X20. The set-less-than instructions.  On a state whose register
    file satisfies the invariant with a width of at least two bits,
    with the source registers designating [a] and [b] and [rd]
    designating [d]: slt, sltu, slti and sltiu return normally and
    append the single pending write (rd, 1) when their comparison holds
    and (rd, 0) otherwise (nothing when [d] is immutable).  slt and slti
    compare signed values; sltu compares the two registers modulo
    [2^bits]; sltiu compares the register modulo [2^bits] with the
    immediate's signed value, so with a negative immediate it always
    writes 0. *)
Theorem set_less_than {Mem : Type} (r : InstructionRType) (i : InstructionIType)
  (model : State Mem) (a b d a' d' : Register.t) :
  RegisterFile_ok (intreg model) ->
  2 <= RegisterFile.bits (intreg model) ->
  RegisterFile.getitem (intreg model) (r_rs1 r) = Ok a ->
  RegisterFile.getitem (intreg model) (r_rs2 r) = Ok b ->
  RegisterFile.getitem (intreg model) (r_rd r) = Ok d ->
  RegisterFile.getitem (intreg model) (i_rs1 i) = Ok a' ->
  RegisterFile.getitem (intreg model) (i_rd i) = Ok d' ->
  let m := 2 ^ RegisterFile.bits (intreg model) in
  let bit (c : bool) := if c then 1 else 0 in
  InstructionSLT_execute r model =
    written model (r_rd r) d (bit (Register.value a <? Register.value b)) /\
  InstructionSLTU_execute r model =
    written model (r_rd r) d
      (bit (Register.value a mod m <? Register.value b mod m)) /\
  InstructionSLTI_execute i model =
    written model (i_rd i) d'
      (bit (Register.value a' <? Immediate.value (i_imm i))) /\
  InstructionSLTIU_execute i model =
    written model (i_rd i) d'
      (bit (Register.value a' mod m <? Immediate.value (i_imm i))) /\
  (Immediate.value (i_imm i) < 0 ->
   InstructionSLTIU_execute i model = written model (i_rd i) d' 0).
Proof.
  intros Hok H2 Ha Hb Hd Ha' Hd' m bit.
  destruct (ok_register model _ a Hok Ha) as (Hba & _).
  destruct (ok_register model _ b Hok Hb) as (Hbb & _).
  destruct (ok_register model _ a' Hok Ha') as (Hba' & _).
  assert (Hsel : forall (c : bool) rd dd,
             RegisterFile.getitem (intreg model) rd = Ok dd ->
             (if c then intreg_setitem model rd (OInt 1)
              else intreg_setitem model rd (OInt 0))
             = written model rd dd (bit c)).
  { intros c rd dd Hdd.
    destruct c; rewrite (intreg_setitem_written model rd dd) by assumption;
      simpl; [rewrite (wrap_bit _ true H2) | rewrite (wrap_bit _ false H2)];
      reflexivity. }
  unfold InstructionSLT_execute, InstructionSLTU_execute, InstructionSLTI_execute,
    InstructionSLTIU_execute, attempt, Register.lt.
  rewrite Ha, Hb, Ha'. simpl.
  rewrite !unsigned_mod by lia. rewrite Hba, Hbb, Hba'. fold m.
  rewrite !(Hsel _ _ d), !(Hsel _ _ d') by assumption.
  repeat split.
  intros Hneg.
  pose proof (Z.mod_pos_bound (Register.value a') m
                ltac:(subst m; apply Z.pow_pos_nonneg; lia)) as Hm.
  destruct (Z.ltb_spec (Register.value a' mod m) (Immediate.value (i_imm i)));
    [lia | reflexivity].
Qed.

Lemma set_less_than_witness :
  let model := mkState small_intreg 0 tt in
  RegisterFile_ok (intreg model) /\
  2 <= RegisterFile.bits (intreg model) /\
  InstructionSLT_execute (mkR 3 1 2) model =
    (Ok tt, mkState (RegisterFile.with_updates small_intreg [TraceRegister.mk 3 1]) 0 tt) /\
  InstructionSLTU_execute (mkR 3 1 2) model =
    (Ok tt, mkState (RegisterFile.with_updates small_intreg [TraceRegister.mk 3 0]) 0 tt) /\
  InstructionSLTIU_execute (mkI 3 2 (Immediate.mk 12 true false (-1))) model =
    (Ok tt, mkState (RegisterFile.with_updates small_intreg [TraceRegister.mk 3 0]) 0 tt).
Proof.
  cbv zeta. split; [exact small_intreg_ok |]. split; [simpl; lia |].
  destruct (set_less_than (mkR 3 1 2) (mkI 3 2 (Immediate.mk 12 true false (-1)))
              (mkState small_intreg 0 tt)
              (Register.mk 32 false (-8)) (Register.mk 32 false 1)
              (Register.mk 32 false 0) (Register.mk 32 false 1)
              (Register.mk 32 false 0)
              small_intreg_ok ltac:(simpl; lia)
              eq_refl eq_refl eq_refl eq_refl eq_refl)
    as (Hslt & Hsltu & _ & _ & Hneg).
  split; [exact Hslt |]. split; [exact Hsltu |].
  apply Hneg. simpl. lia.
Defined.

Lemma land_31 (y : Z) : Z.land y 31 = y mod 32.
Proof.
  change 31 with (Z.ones 5). rewrite Z.land_ones by lia. reflexivity.
Qed.

(** X21. The shift instructions.  On a state whose register file
    satisfies the invariant, with [rs1] and [rd] designating [a] and
    [d]: with a shift amount [n >= 0], slli writes [a * 2^n] wrapped,
    srai writes exactly [a / 2^n] rounded down (the sign propagates),
    and srli writes [(a mod 2^bits) / 2^n] wrapped, which for [n >= 1]
    is exactly that non-negative number (zeros are shifted in).  With a
    negative shift amount all three raise ValueError and leave the
    state unchanged.  With a width of at least six bits, sll shifts by
    the low five bits of [rs2] and therefore never raises. *)
Theorem shift_instructions {Mem : Type} (s : InstructionISType)
  (r : InstructionRType) (model : State Mem) (a d a' b' d' : Register.t) :
  RegisterFile_ok (intreg model) ->
  RegisterFile.getitem (intreg model) (is_rs1 s) = Ok a ->
  RegisterFile.getitem (intreg model) (is_rd s) = Ok d ->
  RegisterFile.getitem (intreg model) (r_rs1 r) = Ok a' ->
  RegisterFile.getitem (intreg model) (r_rs2 r) = Ok b' ->
  RegisterFile.getitem (intreg model) (r_rd r) = Ok d' ->
  let bits := RegisterFile.bits (intreg model) in
  let x := Register.value a in
  let n := py_int (is_shamt s) in
  (0 <= n ->
   InstructionSLLI_execute s model = written model (is_rd s) d (wrap bits (x * 2 ^ n)) /\
   InstructionSRAI_execute s model = written model (is_rd s) d (x / 2 ^ n) /\
   InstructionSRLI_execute s model =
     written model (is_rd s) d (wrap bits (x mod 2 ^ bits / 2 ^ n)) /\
   (1 <= n ->
    0 <= x mod 2 ^ bits / 2 ^ n /\
    wrap bits (x mod 2 ^ bits / 2 ^ n) = x mod 2 ^ bits / 2 ^ n)) /\
  (n < 0 ->
   InstructionSLLI_execute s model = (Raise ValueError, model) /\
   InstructionSRAI_execute s model = (Raise ValueError, model) /\
   InstructionSRLI_execute s model = (Raise ValueError, model)) /\
  (6 <= bits ->
   InstructionSLL_execute r model =
     written model (r_rd r) d'
       (wrap bits (Register.value a' * 2 ^ (Register.value b' mod 32)))).
Proof.
  intros Hok Ha Hd Ha' Hb' Hd' bits x n.
  destruct (ok_register model _ a Hok Ha) as (Hba & Hb1 & Hwa & Hra).
  destruct (ok_register model _ a' Hok Ha') as (Hba' & Hb1' & _).
  destruct (ok_register model _ b' Hok Hb') as (Hbb' & Hbb1' & _).
  assert (H1 : 1 <= bits) by (subst bits; lia).
  destruct (pow2_split bits H1) as [E P].
  unfold InstructionSLLI_execute, InstructionSRAI_execute, InstructionSRLI_execute,
    InstructionSLL_execute, attempt.
  rewrite Ha, Ha', Hb'.
  rewrite !Register_lshift_unfold, Register_rshift_unfold.
  rewrite !Register_init_ok by lia.
  cbn [Py.bind].
  rewrite unsigned_mod by lia. rewrite Hba. fold bits x n.
  unfold Py.lshift, Py.rshift.
  split; [| split].
  - intros Hn. destruct (Z.ltb_spec n 0); [lia |]. cbn [Py.bind].
    rewrite (Register_fresh_ok a (Z.shiftl x n) Hb1).
    rewrite (Register_fresh_ok a (Z.shiftr x n) Hb1).
    rewrite !(intreg_setitem_written model _ d) by assumption.
    cbn [py_int Register.py_int Register.value Register.bits].
    rewrite Hba. fold bits.
    rewrite !wrap_idempotent by exact H1.
    rewrite Z.shiftl_mul_pow2 by lia.
    destruct (shiftr_in_range bits x n H1 Hn) as [Hsr _].
    { subst bits x. rewrite <- Hba. exact Hwa. }
    rewrite Hsr, Z.shiftr_div_pow2 by lia.
    split; [reflexivity |]. split; [reflexivity |]. split; [reflexivity |].
    intros Hn1.
    pose proof (Z.mod_pos_bound x (2 ^ bits) ltac:(lia)) as Hm.
    assert (Hp : 2 <= 2 ^ n).
    { change 2 with (2 ^ 1) at 1. apply Z.pow_le_mono_r; lia. }
    pose proof (Z.div_pos (x mod 2 ^ bits) (2 ^ n) ltac:(lia) ltac:(lia)) as Hq.
    split; [exact Hq |].
    apply wrap_small; [exact H1 |].
    split; [lia |].
    apply Z.div_lt_upper_bound; [lia |]. nia.
  - intros Hn. destruct (Z.ltb_spec n 0); [| lia]. repeat split.
  - intros H6.
    rewrite Register_and_ok by exact Hbb1'. unfold rewrapped.
    rewrite Register_lshift_unfold, Register_init_ok by lia.
    unfold Py.lshift.
    cbn [Py.bind py_int Register.py_int Register.value Register.bits].
    rewrite land_31, Hbb'. fold bits.
    pose proof (Z.mod_pos_bound (Register.value b') 32 ltac:(lia)) as Hm.
    assert (Hp : 2 ^ 5 <= 2 ^ (bits - 1)) by (apply Z.pow_le_mono_r; lia).
    change (2 ^ 5) with 32 in Hp.
    rewrite (wrap_small bits (Register.value b' mod 32)) by lia.
    destruct (Z.ltb_spec (Register.value b' mod 32) 0); [lia |].
    cbn [Py.bind].
    rewrite Register_fresh_ok by exact Hb1'.
    rewrite (intreg_setitem_written model _ d') by assumption.
    cbn [py_int Register.py_int Register.value Register.bits].
    rewrite Hba'. fold bits.
    rewrite wrap_idempotent by exact H1.
    rewrite Z.shiftl_mul_pow2 by lia. reflexivity.
Qed.

Lemma shift_instructions_witness :
  let model := mkState small_intreg 0 tt in
  RegisterFile_ok (intreg model) /\
  InstructionSRLI_execute (mkIS 3 1 (OInt 28)) model =
    (Ok tt, mkState (RegisterFile.with_updates small_intreg [TraceRegister.mk 3 15]) 0 tt) /\
  InstructionSRAI_execute (mkIS 3 1 (OInt 28)) model =
    (Ok tt, mkState (RegisterFile.with_updates small_intreg [TraceRegister.mk 3 (-1)]) 0 tt) /\
  InstructionSLLI_execute (mkIS 3 1 (OInt (-1))) model = (Raise ValueError, model) /\
  InstructionSLL_execute (mkR 3 2 1) model =
    (Ok tt,
     mkState (RegisterFile.with_updates small_intreg [TraceRegister.mk 3 16777216]) 0 tt).
Proof.
  cbv zeta. split; [exact small_intreg_ok |].
  destruct (shift_instructions (mkIS 3 1 (OInt 28)) (mkR 3 2 1)
              (mkState small_intreg 0 tt)
              (Register.mk 32 false (-8)) (Register.mk 32 false 0)
              (Register.mk 32 false 1) (Register.mk 32 false (-8))
              (Register.mk 32 false 0)
              small_intreg_ok eq_refl eq_refl eq_refl eq_refl eq_refl)
    as (Hpos & _ & Hsll).
  destruct (shift_instructions (mkIS 3 1 (OInt (-1))) (mkR 3 2 1)
              (mkState small_intreg 0 tt)
              (Register.mk 32 false (-8)) (Register.mk 32 false 0)
              (Register.mk 32 false 1) (Register.mk 32 false (-8))
              (Register.mk 32 false 0)
              small_intreg_ok eq_refl eq_refl eq_refl eq_refl eq_refl)
    as (_ & Hneg & _).
  destruct (Hpos ltac:(simpl; lia)) as (_ & Hsrai & Hsrli & _).
  destruct (Hneg ltac:(simpl; lia)) as (Hslli & _).
  split; [exact Hsrli |]. split; [exact Hsrai |]. split; [exact Hslli |].
  apply Hsll. simpl. lia.
Defined.

(** X22. Loading constants and moving registers.  On a state whose
    register file satisfies the invariant, with [rd] designating [d]
    and an immediate of at least one bit whose value lies within its
    range: lui and c.lui append the pending write (rd, imm * 4096
    wrapped to the width), c.li appends (rd, imm wrapped); c.mv, with
    [rs] designating [a], appends (rd, the value of [a]).  auipc
    evaluates [model.pc + (self.imm << 12)]: with a Register [pc] of
    at least one bit it appends (rd, pc + imm * 4096 wrapped to the
    width of [pc] and then to the width of the file), which is
    pc + imm * 4096 wrapped once when the two widths are equal; with a
    plain int [pc] it raises TypeError and leaves the state as it was.
    Where a write is appended, nothing is appended when [d] is
    immutable, and [pc] and memory are unchanged. *)
Theorem constant_and_move_instructions {Mem : Type} (self : InstructionUType)
  (rs : Z) (model : State Mem) (a d : Register.t) :
  RegisterFile_ok (intreg model) ->
  RegisterFile.getitem (intreg model) (u_rd self) = Ok d ->
  RegisterFile.getitem (intreg model) rs = Ok a ->
  1 <= Immediate.bits (u_imm self) ->
  Immediate.min (u_imm self) <= Immediate.value (u_imm self)
    <= Immediate.max (u_imm self) ->
  let bits := RegisterFile.bits (intreg model) in
  let i := Immediate.value (u_imm self) in
  let rd := u_rd self in
  InstructionLUI_execute self model = written model rd d (wrap bits (i * 4096)) /\
  InstructionCLUI_execute (mkCI rd (u_imm self)) model =
    written model rd d (wrap bits (i * 4096)) /\
  (forall w, 1 <= w ->
     InstructionAUIPC_execute (PcRegister w) self model =
       written model rd d (wrap bits (wrap w (pc model + i * 4096)))) /\
  InstructionAUIPC_execute (PcRegister bits) self model =
    written model rd d (wrap bits (pc model + i * 4096)) /\
  InstructionAUIPC_execute PcInt self model = (Raise TypeError, model) /\
  InstructionCLI_execute (mkCI rd (u_imm self)) model = written model rd d (wrap bits i) /\
  InstructionCMV_execute (mkCR rd rs) model = written model rd d (Register.value a).
Proof.
  intros Hok Hd Ha Hb Hr bits i rd.
  destruct (Immediate_lshift_ok (u_imm self) 12 Hb Hr ltac:(lia)) as [Hsh _].
  destruct (ok_register model _ a Hok Ha) as (Hba & Hb1 & Hwa & _).
  pose proof (ok_bits _ Hok) as Hbits. fold bits in Hbits.
  assert (Hauipc : forall w, 1 <= w ->
             InstructionAUIPC_execute (PcRegister w) self model =
               written model rd d (wrap bits (wrap w (pc model + i * 4096)))).
  { intros w Hw. unfold InstructionAUIPC_execute, attempt. rewrite Hsh.
    rewrite pc_plus_register by exact Hw.
    rewrite (intreg_setitem_written model _ d) by assumption.
    cbn [py_int Register.py_int Register.value Immediate.value]. fold bits i.
    change (2 ^ 12) with 4096. reflexivity. }
  unfold InstructionLUI_execute, InstructionCLUI_execute,
    InstructionCLI_execute, InstructionCMV_execute, attempt.
  cbn [ci_rd ci_imm cr_rd cr_rs]. rewrite Hsh, Ha.
  rewrite !(intreg_setitem_written model _ d) by assumption.
  cbn [py_int Register.py_int Immediate.value]. fold bits i.
  change (2 ^ 12) with 4096.
  split; [reflexivity |]. split; [reflexivity |]. split; [exact Hauipc |].
  split; [rewrite (Hauipc bits Hbits), wrap_idempotent by exact Hbits; reflexivity |].
  split; [unfold InstructionAUIPC_execute, attempt; rewrite Hsh; reflexivity |].
  split; [reflexivity |].
  subst bits. rewrite <- Hba, Hwa. reflexivity.
Qed.

Lemma constant_and_move_instructions_witness :
  let model := mkState small_intreg 256 tt in
  let self := mkU 3 (Immediate.mk 20 false false 1048575) in
  RegisterFile_ok (intreg model) /\
  1 <= Immediate.bits (u_imm self) /\
  Immediate.min (u_imm self) <= Immediate.value (u_imm self)
    <= Immediate.max (u_imm self) /\
  InstructionLUI_execute self model =
    (Ok tt,
     mkState (RegisterFile.with_updates small_intreg [TraceRegister.mk 3 (-4096)]) 256 tt) /\
  InstructionAUIPC_execute (PcRegister 32) self model =
    (Ok tt,
     mkState (RegisterFile.with_updates small_intreg [TraceRegister.mk 3 (-3840)]) 256 tt) /\
  InstructionAUIPC_execute PcInt self model = (Raise TypeError, model).
Proof.
  cbv zeta.
  assert (Hr : Immediate.min (Immediate.mk 20 false false 1048575) <= 1048575
               <= Immediate.max (Immediate.mk 20 false false 1048575))
    by (cbv; split; discriminate).
  split; [exact small_intreg_ok |]. split; [simpl; lia |]. split; [exact Hr |].
  destruct (constant_and_move_instructions
              (mkU 3 (Immediate.mk 20 false false 1048575)) 1
              (mkState small_intreg 256 tt)
              (Register.mk 32 false (-8)) (Register.mk 32 false 0)
              small_intreg_ok eq_refl eq_refl ltac:(simpl; lia) Hr)
    as (Hlui & _ & _ & Hauipc & Hint & _).
  split; [exact Hlui |]. split; [exact Hauipc | exact Hint].
Defined.

(** X23. jalr.  On a state whose register file satisfies the invariant,
    with [rd] designating [d] and [rs1] designating [a]: jalr returns
    normally, appends the pending write (rd, pc + 4 wrapped) unless [d]
    is immutable, and sets [pc] to [a + imm] wrapped to the register
    width, computed from the committed value of [a] also when
    [rd = rs1]; the low bit of the target is kept as it is.  When [rd]
    designates a mutable register but [rs1] designates none, jalr
    raises IndexError after the write to [rd] has been appended. *)
Theorem jalr_links_then_jumps {Mem : Type} (self : InstructionIType)
  (model : State Mem) (d : Register.t) :
  RegisterFile_ok (intreg model) ->
  RegisterFile.getitem (intreg model) (i_rd self) = Ok d ->
  let bits := RegisterFile.bits (intreg model) in
  let linked := snd (written model (i_rd self) d (wrap bits (pc model + 4))) in
  (forall a,
      RegisterFile.getitem (intreg model) (i_rs1 self) = Ok a ->
      InstructionJALR_execute self model =
        (Ok tt,
         with_pc linked
           (wrap bits (Register.value a + Immediate.value (i_imm self))))) /\
  (forall e,
      RegisterFile.getitem (intreg model) (i_rs1 self) = Raise e ->
      InstructionJALR_execute self model = (Raise e, linked) /\
      (Register.immutable d = false ->
       RegisterFile.regs_updates (intreg linked) =
         RegisterFile.regs_updates (intreg model) ++
           [TraceRegister.mk (i_rd self) (wrap bits (pc model + 4))])).
Proof.
  intros Hok Hd bits linked.
  assert (Hregs : RegisterFile.getitem (intreg linked) (i_rs1 self)
                  = RegisterFile.getitem (intreg model) (i_rs1 self)).
  { subst linked. unfold written. simpl.
    destruct (Register.immutable d); reflexivity. }
  unfold InstructionJALR_execute.
  rewrite (intreg_setitem_written model _ d) by assumption.
  cbn [py_int Register.py_int]. fold bits.
  unfold written in *. cbn [snd] in *. fold linked.
  split.
  - intros a Ha.
    destruct (ok_register model _ a Hok Ha) as (Hba & Hb1 & _).
    unfold attempt. rewrite Hregs, Ha.
    rewrite Register_add_ok by exact Hb1. unfold rewrapped.
    cbn [py_int Register.py_int Register.value]. rewrite Hba. reflexivity.
  - intros e He. unfold attempt. rewrite Hregs, He.
    split; [reflexivity |].
    intros Hi. subst linked. rewrite Hi. reflexivity.
Qed.

Lemma jalr_links_then_jumps_witness :
  let model := mkState small_intreg 100 tt in
  RegisterFile_ok (intreg model) /\
  InstructionJALR_execute (mkI 2 2 (Immediate.mk 12 true false 8)) model =
    (Ok tt,
     mkState (RegisterFile.with_updates small_intreg [TraceRegister.mk 2 104]) 9 tt).
Proof.
  cbv zeta. split; [exact small_intreg_ok |].
  destruct (jalr_links_then_jumps (mkI 2 2 (Immediate.mk 12 true false 8))
              (mkState small_intreg 100 tt) (Register.mk 32 false 1)
              small_intreg_ok eq_refl) as [Hjump _].
  exact (Hjump (Register.mk 32 false 1) eq_refl).
Defined.

Lemma intreg_setitem_raise {Mem : Type} (model model' : State Mem) (key : Z)
  (v : operand) (e : exn) :
  intreg_setitem model key v = (Raise e, model') -> model' = model.
Proof.
  unfold intreg_setitem.
  destruct (RegisterFile.setitem (intreg model) key v) as [o rf] eqn:E.
  intros [= -> <-]. apply setitem_raise in E. subst rf.
  destruct model; reflexivity.
Qed.

Lemma attempt_raise {Mem A : Type} (m : result A) (model model' : State Mem)
  (k : A -> result unit * State Mem) (e : exn) :
  (forall a e' m', k a = (Raise e', m') -> m' = model) ->
  attempt m model k = (Raise e, model') -> model' = model.
Proof.
  intros Hk. unfold attempt. destruct m as [a | e0].
  - apply Hk.
  - intros [= _ <-]. reflexivity.
Qed.

Ltac unchanged_on_raise :=
  repeat first
    [ eapply intreg_setitem_raise; eassumption
    | match goal with
      | H : attempt _ _ _ = (Raise _, _) |- _ =>
          eapply attempt_raise; [| exact H]; clear H;
          let H' := fresh "H" in intros ? ? ? H'; cbv beta in H'
      | H : (if ?c then _ else _) = (Raise _, _) |- _ => destruct c
      | H : branch_execute _ _ _ _ = (Raise _, _) |- _ =>
          unfold branch_execute in H
      | H : match ?m with Ok _ => _ | Raise _ => _ end = (Raise _, _) |- _ =>
          destruct m
      | H : (Ok _, _) = (Raise _, _) |- _ => discriminate H
      | H : (Raise _, ?m) = (Raise _, _) |- _ =>
          injection H as _ <-; reflexivity
      end ].

(** X24. No instruction below leaves a partial effect.  Whenever
    [execute] of a branch, of a register-register or register-immediate
    arithmetic, comparison or shift instruction, of auipc, or of c.addi,
    c.li, c.mv, c.lui or c.j raises, whatever the exception (a subscript
    that designates no register, a negative shift count, a failing
    Immediate or Register construction, the TypeError of adding an
    Immediate to an int [pc]) and whatever [pc] is (an int, a Register
    of any width), the state it leaves is the state it was given:
    registers, pending log, [pc] and memory. *)
Theorem execute_raise_leaves_state {Mem : Type} (model model' : State Mem) (e : exn)
  (kind : pc_kind) (r : InstructionRType) (i : InstructionIType) (s : InstructionISType)
  (u : InstructionUType) (b : InstructionBType)
  (ci : InstructionCIType) (cr : InstructionCRType) (cj : InstructionCJType) :
  In (Raise e, model')
    [ InstructionADD_execute r model; InstructionSUB_execute r model;
      InstructionAND_execute r model; InstructionOR_execute r model;
      InstructionXOR_execute r model; InstructionSLL_execute r model;
      InstructionSRL_execute r model; InstructionSRA_execute r model;
      InstructionSLT_execute r model; InstructionSLTU_execute r model;
      InstructionADDI_execute i model; InstructionANDI_execute i model;
      InstructionORI_execute i model; InstructionXORI_execute i model;
      InstructionSLTI_execute i model; InstructionSLTIU_execute i model;
      InstructionSLLI_execute s model; InstructionSRLI_execute s model;
      InstructionSRAI_execute s model; InstructionAUIPC_execute kind u model;
      InstructionBEQ_execute kind b model; InstructionBNE_execute kind b model;
      InstructionBLT_execute kind b model; InstructionBGE_execute kind b model;
      InstructionBLTU_execute kind b model; InstructionBGEU_execute kind b model;
      InstructionCADDI_execute ci model; InstructionCLI_execute ci model;
      InstructionCMV_execute cr model; InstructionCLUI_execute ci model;
      InstructionCJ_execute kind cj model ] ->
  model' = model.
Proof.
  intros Hin. simpl in Hin.
  repeat match goal with
         | H : _ \/ _ |- _ => destruct H as [H | H]
         end;
    try contradiction;
    unfold InstructionADD_execute, InstructionSUB_execute, InstructionAND_execute,
      InstructionOR_execute, InstructionXOR_execute, InstructionSLL_execute,
      InstructionSRL_execute, InstructionSRA_execute, InstructionSLT_execute,
      InstructionSLTU_execute, InstructionADDI_execute, InstructionANDI_execute,
      InstructionORI_execute, InstructionXORI_execute, InstructionSLTI_execute,
      InstructionSLTIU_execute, InstructionSLLI_execute, InstructionSRLI_execute,
      InstructionSRAI_execute, InstructionAUIPC_execute, InstructionBEQ_execute,
      InstructionBNE_execute, InstructionBLT_execute, InstructionBGE_execute,
      InstructionBLTU_execute, InstructionBGEU_execute, InstructionCADDI_execute,
      InstructionCLI_execute, InstructionCMV_execute, InstructionCLUI_execute,
      InstructionCJ_execute in Hin;
    unchanged_on_raise.
Qed.

Lemma execute_raise_leaves_state_witness :
  let model := mkState small_intreg 0 tt in
  (let out := InstructionSRL_execute (mkR 3 2 1) model in
   out = (Raise ValueError, snd out) /\ snd out = model) /\
  (let out := InstructionBEQ_execute PcInt (mkB 0 0 (Immediate.mk 13 true true 8)) model in
   out = (Raise TypeError, snd out) /\ snd out = model).
Proof.
  cbv zeta. split; (split; [reflexivity |]).
  - apply (execute_raise_leaves_state (mkState small_intreg 0 tt) _ ValueError PcInt
             (mkR 3 2 1) (mkI 0 0 (Immediate.mk 12 true false 0)) (mkIS 0 0 (OInt 0))
             (mkU 0 (Immediate.mk 20 false false 0))
             (mkB 0 0 (Immediate.mk 13 true true 8))
             (mkCI 0 (Immediate.mk 6 true false 0)) (mkCR 0 0)
             (mkCJ (Immediate.mk 12 true true 0))).
    do 6 right. left. reflexivity.
  - apply (execute_raise_leaves_state (mkState small_intreg 0 tt) _ TypeError PcInt
             (mkR 3 2 1) (mkI 0 0 (Immediate.mk 12 true false 0)) (mkIS 0 0 (OInt 0))
             (mkU 0 (Immediate.mk 20 false false 0))
             (mkB 0 0 (Immediate.mk 13 true true 8))
             (mkCI 0 (Immediate.mk 6 true false 0)) (mkCR 0 0)
             (mkCJ (Immediate.mk 12 true true 0))).
    do 20 right. left. reflexivity.
Defined.

Lemma State_commit_written {Mem : Type} (model : State Mem) (rd : Z)
  (d : Register.t) (v : Z) (p : nat) :
  RegisterFile_ok (intreg model) ->
  RegisterFile.regs_updates (intreg model) = [] ->
  Py.position (length (RegisterFile.regs (intreg model))) rd = Ok p ->
  RegisterFile.getitem (intreg model) rd = Ok d ->
  exists m2,
    State_commit (snd (written model rd d v)) = (Ok tt, m2) /\
    pc m2 = pc model /\
    memory m2 = memory model /\
    RegisterFile.regs_updates (intreg m2) = [] /\
    forall key' p' r',
      Py.position (length (RegisterFile.regs (intreg model))) key' = Ok p' ->
      RegisterFile.getitem (intreg model) key' = Ok r' ->
      RegisterFile.getitem (intreg m2) key' =
        Ok (if Nat.eqb p p' && negb (Register.immutable d)
            then Register.with_value d (wrap (RegisterFile.bits (intreg model)) v)
            else r').
Proof.
  intros Hok Hlog Hp Hd.
  set (rf1 := intreg (snd (written model rd d v))).
  assert (Hok1 : RegisterFile_ok rf1).
  { subst rf1. unfold written. simpl. destruct (Register.immutable d); simpl.
    - exact Hok.
    - apply ok_append; [exact Hok | exists p; exact Hp]. }
  assert (Hregs : RegisterFile.regs rf1 = RegisterFile.regs (intreg model)).
  { subst rf1. unfold written. simpl. destruct (Register.immutable d); reflexivity. }
  assert (Hbits : RegisterFile.bits rf1 = RegisterFile.bits (intreg model)).
  { subst rf1. unfold written. simpl. destruct (Register.immutable d); reflexivity. }
  destruct (commit_ok rf1 Hok1) as (rs' & Hc & Hlen & Hnth).
  unfold State_commit. fold rf1. rewrite Hc.
  eexists. split; [reflexivity |].
  split; [unfold written; simpl; destruct (Register.immutable d); reflexivity |].
  split; [unfold written; simpl; destruct (Register.immutable d); reflexivity |].
  split; [reflexivity |].
  intros key' p' r' Hp' Hr'. simpl.
  unfold RegisterFile.getitem in *. simpl.
  apply getitem_inv in Hr' as (q' & Hq' & Hqr').
  apply getitem_inv in Hd as (q & Hq & Hqd).
  assert (q = p) by congruence. assert (q' = p') by congruence. subst q q'.
  rewrite Hregs in *.
  apply getitem_intro with (p := p'); [rewrite Hlen; exact Hp' |].
  rewrite (Hnth p' r' Hqr'). f_equal.
  subst rf1. unfold written. simpl.
  destruct (Register.immutable d) eqn:Hi; simpl.
  - rewrite Hlog, andb_false_r. reflexivity.
  - rewrite Hlog, andb_true_r. simpl. unfold targets. simpl. rewrite Hp.
    destruct (Nat.eqb_spec p p') as [<- | Hne]; [| reflexivity].
    assert (r' = d) by congruence. subst r'. simpl. rewrite Hi.
    destruct Hok as [_ Hrs _]. rewrite Forall_forall in Hrs.
    destruct (Hrs d (nth_error_In _ _ Hqd)) as [-> _]. reflexivity.
Qed.

(** X25. An instruction and its commit.  On a state whose register file
    satisfies the invariant and has an empty log, with [rs1] and [rd]
    designating registers [a] and [d]: addi followed by the state's
    commit returns normally, leaves [pc] and memory as they were (the
    instruction itself never advances [pc]) and the log empty; then a
    subscript designating the register of [rd] reads it holding
    [a + imm] wrapped to the width when that register is mutable, and
    every other read, as every read when it is immutable, gives what it
    gave before the instruction. *)
Theorem addi_then_commit {Mem : Type} (self : InstructionIType)
  (model : State Mem) (a d : Register.t) (p : nat) :
  RegisterFile_ok (intreg model) ->
  RegisterFile.regs_updates (intreg model) = [] ->
  RegisterFile.getitem (intreg model) (i_rs1 self) = Ok a ->
  Py.position (length (RegisterFile.regs (intreg model))) (i_rd self) = Ok p ->
  RegisterFile.getitem (intreg model) (i_rd self) = Ok d ->
  exists m1 m2,
    InstructionADDI_execute self model = (Ok tt, m1) /\
    State_commit m1 = (Ok tt, m2) /\
    pc m2 = pc model /\
    memory m2 = memory model /\
    RegisterFile.regs_updates (intreg m2) = [] /\
    forall key' p' r',
      Py.position (length (RegisterFile.regs (intreg model))) key' = Ok p' ->
      RegisterFile.getitem (intreg model) key' = Ok r' ->
      RegisterFile.getitem (intreg m2) key' =
        Ok (if Nat.eqb p p' && negb (Register.immutable d)
            then Register.with_value d
                   (wrap (RegisterFile.bits (intreg model))
                      (Register.value a + Immediate.value (i_imm self)))
            else r').
Proof.
  intros Hok Hlog Ha Hp Hd.
  destruct (ok_register model _ a Hok Ha) as (Hba & Hb1 & _).
  assert (Hex : InstructionADDI_execute self model =
                written model (i_rd self) d
                  (wrap (RegisterFile.bits (intreg model))
                     (Register.value a + Immediate.value (i_imm self)))).
  { unfold InstructionADDI_execute, attempt. rewrite Ha.
    rewrite Register_add_ok by exact Hb1. unfold rewrapped.
    rewrite (intreg_setitem_written model _ d) by assumption.
    cbn [py_int Register.py_int Register.value Register.bits].
    rewrite Hba, wrap_idempotent by lia. reflexivity. }
  destruct (State_commit_written model (i_rd self) d
              (wrap (RegisterFile.bits (intreg model))
                 (Register.value a + Immediate.value (i_imm self))) p
              Hok Hlog Hp Hd)
    as (m2 & Hc & Hpc & Hmem & Hl & Hread).
  eexists. exists m2. split; [rewrite Hex; reflexivity |].
  split; [exact Hc |]. split; [exact Hpc |]. split; [exact Hmem |].
  split; [exact Hl |].
  intros key' p' r' Hp' Hr'. rewrite (Hread key' p' r' Hp' Hr').
  rewrite wrap_idempotent by apply Hok. reflexivity.
Qed.

Lemma addi_then_commit_witness :
  let model := rv32_state 0 in
  RegisterFile_ok (intreg model) /\
  exists m1 m2,
    InstructionADDI_execute (mkI 5 0 (Immediate.mk 12 true false 10)) model
      = (Ok tt, m1) /\
    State_commit m1 = (Ok tt, m2) /\
    pc m2 = 0 /\
    RegisterFile.getitem (intreg m2) 5 = Ok (Register.mk 32 false 10) /\
    RegisterFile.getitem (intreg m2) 0 = Ok (Register.mk 32 true 0).
Proof.
  cbv zeta. split; [exact rv32_intreg_ok |].
  destruct (addi_then_commit (mkI 5 0 (Immediate.mk 12 true false 10))
              (rv32_state 0) (Register.mk 32 true 0) (Register.mk 32 false 0) 5
              rv32_intreg_ok eq_refl eq_refl eq_refl eq_refl)
    as (m1 & m2 & Hex & Hc & Hpc & _ & _ & Hread).
  exists m1, m2. split; [exact Hex |]. split; [exact Hc |]. split; [exact Hpc |].
  split.
  - exact (Hread 5 5%nat (Register.mk 32 false 0) eq_refl eq_refl).
  - exact (Hread 0 0%nat (Register.mk 32 true 0) eq_refl eq_refl).
Defined.
